(** * A shallow embedding of the "Basic PyTorch Tutorial" notebook

    The notebook builds a synthetic data set ([MyDataset]), wraps it in
    data loaders, defines a small feed-forward classifier ([MyModel]),
    runs epochs with [single_epoch_loop] and finally saves and reloads a
    checkpoint.  Tensor arithmetic, automatic differentiation, the
    optimiser update rule and the serialiser belong to the framework; they
    appear here as the operations of three interfaces ([Scalar], [Torch],
    [Pickle]) over which every definition and theorem is generic.  Everything the
    notebook itself writes (shapes, chunking, batching, control flow,
    accumulators, dictionary keys) is modelled concretely. *)

From Stdlib Require Import ZArith QArith Lqa List Lia Bool String.
From stdpp Require Import base option list gmap strings.

Local Open Scope list_scope.
Local Open Scope nat_scope.

(** ** Python exceptions and the error monad *)

Inductive exn : Type :=
| RuntimeError      (* shape errors raised by tensor operations *)
| IndexError
| TypeError
| ValueError
| AttributeError
| ZeroDivisionError
| KeyError
| FileNotFoundError
| UnboundLocalError
| UnpicklingError.

Inductive result (A : Type) : Type :=
| Ok (a : A)
| Err (e : exn).
Arguments Ok {A} a.
Arguments Err {A} e.

#[export] Instance result_ret : MRet result := fun _ a => Ok a.
#[export] Instance result_bind : MBind result := fun _ _ f r =>
  match r with
  | Ok a => f a
  | Err e => Err e
  end.

#[export] Instance result_fmap : FMap result := fun _ _ f r =>
  match r with
  | Ok a => Ok (f a)
  | Err e => Err e
  end.

Definition is_Ok {A} (r : result A) : Prop := exists a, r = Ok a.
Definition is_Err {A} (r : result A) : Prop := exists e, r = Err e.

(** ** Scalars

    The element type of floating-point tensors.  No algebraic law is
    assumed of the arithmetic: the statements below hold for IEEE
    arithmetic with any rounding and any reduction order as well as for
    exact arithmetic. *)

Class Scalar : Type := {
  scalar : Type;
  s_lit : Q -> scalar;                   (* a numeric literal, converted to the dtype *)
  s_add : scalar -> scalar -> scalar;
  s_sub : scalar -> scalar -> scalar;
  s_mul : scalar -> scalar -> scalar;
  s_div : scalar -> scalar -> scalar;
  s_sum : list scalar -> scalar;         (* the framework's sum reduction *)
  s_ltb : scalar -> scalar -> bool       (* x < y *)
}.

(** The comparison is a strict weak order (true of floats without NaN). *)
Class ScalarOrder `{Scalar} : Prop := {
  s_ltb_irrefl : forall x, s_ltb x x = false;
  s_ltb_trans : forall x y z, s_ltb x y = true -> s_ltb y z = true -> s_ltb x z = true;
  s_ltb_negtrans : forall x y z, s_ltb x y = false -> s_ltb y z = false -> s_ltb x z = false
}.

(** Exact rational arithmetic, used to run the definitions. *)
Definition Q_ltb (x y : Q) : bool := negb (Qle_bool y x).

#[export] Instance Q_scalar : Scalar := {|
  scalar := Q;
  s_lit := fun q => q;
  s_add := Qplus;
  s_sub := Qminus;
  s_mul := Qmult;
  s_div := Qdiv;
  s_sum := fun l => Qred (fold_left Qplus l (0 # 1)%Q);
  s_ltb := Q_ltb
|}.

(** ** Tensors: a shape and the elements in row-major order *)

Record tensor (A : Type) : Type := Tensor { shape : list nat; data : list A }.
Arguments Tensor {A} shape data.
Arguments shape {A} t.
Arguments data {A} t.

Definition numel (dims : list nat) : nat := fold_right Nat.mul 1 dims.

(** [chunk c k l] is [l[k*c : (k+1)*c]]. *)
Definition chunk {A} (c k : nat) (l : list A) : list A := take c (drop (k * c) l).

(** [len(t)]: the size of the first dimension. *)
Definition tensor_len {A} (t : tensor A) : result nat :=
  match shape t with
  | [] => Err TypeError
  | n :: _ => Ok n
  end.

(** A Python integer that fits the signed 64-bit integer into which an
    index is unpacked. *)
Definition fits_int64 (i : Z) : bool :=
  ((- 2 ^ 63 <=? i)%Z && (i <? 2 ^ 63)%Z)%bool.

(** [t[i]] for a Python integer [i]: negative indices count from the end.
    An index that designates no row is refused: with ValueError when it
    does not fit 64 bits (overflow when unpacking it), with IndexError
    otherwise.  A dimension is itself a 64-bit integer, so an index that
    designates a row always fits and the order of the two tests does not
    show. *)
Definition tensor_index {A} (t : tensor A) (i : Z) : result (tensor A) :=
  match shape t with
  | [] => if fits_int64 i then Err IndexError else Err ValueError
  | n :: rest =>
      let i' := if (i <? 0)%Z then (i + Z.of_nat n)%Z else i in
      if ((0 <=? i')%Z && (i' <? Z.of_nat n)%Z)%bool
      then Ok (Tensor rest (chunk (numel rest) (Z.to_nat i') (data t)))
      else if fits_int64 i then Err IndexError else Err ValueError
  end.

(** Shape inference of [reshape]/[view], one dimension may be [-1]. *)
Definition known_size (dims : list Z) : nat :=
  numel (map Z.to_nat (List.filter (fun d => (0 <=? d)%Z) dims)).

Definition infer_size (dims : list Z) (n : nat) : result (list nat) :=
  if existsb (fun d => (d <? -1)%Z) dims then Err RuntimeError
  else
    let newsize := known_size dims in
    match length (List.filter (fun d => (d =? -1)%Z) dims) with
    | 0 => if n =? newsize then Ok (map Z.to_nat dims) else Err RuntimeError
    | 1 =>
        if ((n =? newsize) || ((0 <? newsize) && (n mod newsize =? 0)))%bool
        then
          if newsize =? 0 then Err RuntimeError   (* the -1 is ambiguous *)
          else Ok (map (fun d => if (d =? -1)%Z then n / newsize else Z.to_nat d) dims)
        else Err RuntimeError
    | _ => Err RuntimeError                       (* only one dimension can be inferred *)
    end.

Definition reshape {A} (t : tensor A) (dims : list Z) : result (tensor A) :=
  s ← infer_size dims (numel (shape t));
  Ok (Tensor s (data t)).

Section Numeric.
Context `{Sc : Scalar}.

(** [torch.rand] at the given sizes: the elements are successive draws of the generator. *)
Definition torch_rand (g : nat -> scalar) (dims : list nat) : tensor scalar :=
  Tensor dims (map g (seq 0 (numel dims))).

Definition s_of_nat (n : nat) : scalar := s_lit (inject_Z (Z.of_nat n)).

(** Arithmetic mean: the sum divided by the number of elements. *)
Definition mean (l : list scalar) : scalar := s_div (s_sum l) (s_of_nat (length l)).

(** [t.mean(-1)]: reduce the last dimension. *)
Definition tensor_mean_last (t : tensor scalar) : tensor scalar :=
  let outer := List.removelast (shape t) in
  let c := List.last (shape t) 1 in
  Tensor outer (map (fun k => mean (chunk c k (data t))) (seq 0 (numel outer))).

(** Index of the maximum, the first one among equals: the running best is
    replaced only by a strictly greater element. *)
Fixpoint argmax_from (best : scalar) (bi i : nat) (l : list scalar) : nat :=
  match l with
  | [] => bi
  | x :: l' =>
      if s_ltb best x then argmax_from x i (S i) l'
      else argmax_from best bi (S i) l'
  end.

Definition argmax (l : list scalar) : nat :=
  match l with
  | [] => 0
  | x :: l' => argmax_from x 0 1 l'
  end.

(** [t.argmax(1)] of a matrix, an integer tensor with one entry per row.
    (Only rank 2 is modelled; on rank 1 the dimension is out of range.) *)
Definition tensor_argmax1 (t : tensor scalar) : result (tensor Z) :=
  match shape t with
  | [a; b] =>
      if b =? 0 then Err IndexError
      else Ok (Tensor [a] (map (fun i => Z.of_nat (argmax (chunk b i (data t)))) (seq 0 a)))
  | _ => Err IndexError
  end.

(** ** The synthetic data set *)

Record MyDataset : Type := { samples : tensor scalar; labels : tensor Z }.

(** [MyDataset.__init__(self, N)]; [g] is the random source behind
    [torch.rand]. *)
Definition MyDataset_init (g : nat -> scalar) (N : nat) : result MyDataset :=
  let samples := torch_rand g [N; 256] in
  r ← reshape samples [Z.of_nat N; 4%Z; (-1)%Z];
  let _labels := tensor_mean_last r in
  l ← tensor_argmax1 _labels;
  Ok {| samples := samples; labels := l |}.

(** [MyDataset.__len__] *)
Definition MyDataset_len (d : MyDataset) : result nat := tensor_len (samples d).

(** [MyDataset.__getitem__] *)
Definition MyDataset_getitem (d : MyDataset) (index : Z)
  : result (tensor scalar * tensor Z) :=
  s ← tensor_index (samples d) index;
  l ← tensor_index (labels d) index;
  Ok (s, l).

(** The row that a Python index designates among [N]. *)
Definition wrap_index (N : nat) (i : Z) : Z :=
  if (i <? 0)%Z then (i + Z.of_nat N)%Z else i.

(** The (Sample, Label) pair stored at position [k]: row [k] of the
    samples and entry [k] of the labels. *)
Definition item_at (d : MyDataset) (k : nat) : tensor scalar * tensor Z :=
  (Tensor [256] (chunk 256 k (data (samples d))),
   Tensor [] (chunk 1 k (data (labels d)))).

(** The label as the text defines it: the sample is cut into the four
    patches [v[:64]], [v[64:128]], [v[128:192]], [v[192:]] and the patch
    with the highest average wins. *)
Definition patches (v : list scalar) : list (list scalar) :=
  [take 64 v; take 64 (drop 64 v); take 64 (drop 128 v); drop 192 v].

Definition patch_means (v : list scalar) : list scalar := map mean (patches v).

Definition derive_label (v : list scalar) : Z := Z.of_nat (argmax (patch_means v)).

(** [i] is the position of a greatest element of [l], and every earlier
    element is strictly smaller. *)
Definition first_max (l : list scalar) (i : nat) : Prop :=
  exists x, l !! i = Some x /\
    (forall j y, l !! j = Some y -> s_ltb x y = false) /\
    (forall j y, j < i -> l !! j = Some y -> s_ltb y x = true).

End Numeric.

(** A generator and a data set of two samples to run the definitions on. *)
Definition demo_rand (k : nat) : Q :=
  (Z.of_nat ((k * 37 + k / 64 * 11) mod 101) # 101)%Q.

Definition empty_dataset `{Scalar} : MyDataset :=
  {| samples := Tensor [] []; labels := Tensor [] [] |}.

Definition demo_dataset : MyDataset :=
  match MyDataset_init demo_rand 2 with
  | Ok d => d
  | Err _ => empty_dataset
  end.

Definition demo_item (index : Z) : tensor Q * tensor Z :=
  match MyDataset_getitem demo_dataset index with
  | Ok p => p
  | Err _ => (Tensor [] [], Tensor [] [])
  end.

(** ** Data loaders

    The notebook only configures [torch.utils.data.DataLoader]; iteration
    is the framework's: a sampler gives the order of the indices, the
    batch sampler groups them, and every group is fetched through
    [__getitem__] and collated into a pair of stacked tensors. *)

Section Loader.
Context `{Sc : Scalar}.

Record DataLoader : Type := {
  dataset : MyDataset;
  batch_size : nat;
  shuffle : bool;
  drop_last : bool;
  num_workers : nat
}.

(** The constructor rejects a batch size that is not positive. *)
Definition DataLoader_init (ds : MyDataset) (batch_size : nat)
    (shuffle drop_last : bool) (num_workers : nat) : result DataLoader :=
  if batch_size =? 0 then Err ValueError
  else Ok {| dataset := ds; batch_size := batch_size; shuffle := shuffle;
             drop_last := drop_last; num_workers := num_workers |}.

(** A random order of [0 .. n-1]: each index in turn is inserted at a
    drawn position of the order built so far. *)
Definition insert_at {A} (k : nat) (x : A) (l : list A) : list A :=
  take k l ++ x :: drop k l.

Definition randperm (draws : nat -> nat) (n : nat) : list nat :=
  fold_left (fun acc i => insert_at (draws i mod S (length acc)) i acc)
            (seq 0 n) [].

(** The batch sampler: indices are appended to the current batch, which
    is emitted when it reaches [bs]; what is left at the end is emitted
    unless it is empty or [drop_last] is set. *)
Fixpoint batch_sampler (bs : nat) (drop_last : bool) (idxs batch : list nat)
  : list (list nat) :=
  match idxs with
  | [] => if ((0 <? length batch) && negb drop_last)%bool then [batch] else []
  | idx :: rest =>
      let batch := batch ++ [idx] in
      if length batch =? bs then batch :: batch_sampler bs drop_last rest []
      else batch_sampler bs drop_last rest batch
  end.

(** [torch.stack]: tensors of one shape, put along a new first dimension. *)
Definition stack {A} (ts : list (tensor A)) : result (tensor A) :=
  match ts with
  | [] => Err RuntimeError
  | t :: _ =>
      if forallb (fun t' => bool_decide (shape t' = shape t)) ts
      then Ok (Tensor (length ts :: shape t) (concat (map data ts)))
      else Err RuntimeError
  end.

Definition batch : Type := tensor scalar * tensor Z.

(** Fetch the items of one group of indices and collate them. *)
Definition fetch (ds : MyDataset) (idxs : list nat) : result batch :=
  items ← mapM (fun i => MyDataset_getitem ds (Z.of_nat i)) idxs;
  samples ← stack (map fst items);
  labels ← stack (map snd items);
  Ok (samples, labels).

(** One pass over the loader; [draws] is the random source of the shuffle. *)
Definition DataLoader_iter (dl : DataLoader) (draws : nat -> nat) : result (list batch) :=
  n ← MyDataset_len (dataset dl);
  let order := if shuffle dl then randperm draws n else seq 0 n in
  mapM (fetch (dataset dl)) (batch_sampler (batch_size dl) (drop_last dl) order []).

(** The two loaders of the notebook, over data sets of any size. *)
Definition train_loader (ds : MyDataset) : result DataLoader :=
  DataLoader_init ds 256 true true 2.

Definition test_loader (ds : MyDataset) : result DataLoader :=
  DataLoader_init ds 256 false false 2.

(** The batch that a non-empty group of valid indices is collated into. *)
Definition collated (ds : MyDataset) (idxs : list nat) : batch :=
  (Tensor [length idxs; 256] (concat (map (fun i => chunk 256 i (data (samples ds))) idxs)),
   Tensor [length idxs] (map (fun i => derive_label (chunk 256 i (data (samples ds)))) idxs)).

(** Number of items of a batch: [len(samples)]. *)
Definition batch_len (b : batch) : result nat := tensor_len b.1.

(** The batch sizes of a pass over [n] items: full batches, then the
    remainder when it is kept and not empty. *)
Definition pass_sizes (n bs : nat) (drop_last : bool) : list nat :=
  replicate (n / bs) bs ++
  (if (drop_last || (n mod bs =? 0))%bool then [] else [n mod bs]).

End Loader.

Definition demo_dataloader : DataLoader :=
  {| dataset := demo_dataset; batch_size := 3; shuffle := true;
     drop_last := false; num_workers := 2 |}.

(** ** The model *)

Section Model.
Context `{Sc : Scalar}.

Definition tensor_map {A B} (f : A -> B) (t : tensor A) : tensor B :=
  Tensor (shape t) (map f (data t)).

(** The modules that [nn.Sequential] chains. *)
Inductive layer : Type :=
| Linear (in_features out_features : nat) (weight bias : list scalar)
| ReLU
| Dropout (p : Q).

(** [nn.Linear] on one row: [y_j = sum_k x_k * W[j,k] + b_j], the weight
    being stored as [out_features] rows of [in_features] entries. *)
Definition linear_row (i o : nat) (W b : list scalar) (x : list scalar) : list scalar :=
  map (fun j => s_add (s_sum (zip_with s_mul x (chunk i j W))) (nth j b (s_lit 0)))
      (seq 0 o).

(** [nn.Linear] acts on the last dimension, which must be [in_features]. *)
Definition linear (i o : nat) (W b : list scalar) (x : tensor scalar)
  : result (tensor scalar) :=
  match last (shape x) with
  | Some d =>
      if d =? i then
        let outer := List.removelast (shape x) in
        Ok (Tensor (outer ++ [o])
              (concat (map (fun k => linear_row i o W b (chunk i k (data x)))
                           (seq 0 (numel outer)))))
      else Err RuntimeError
  | None => Err RuntimeError
  end.

Definition relu (v : scalar) : scalar := if s_ltb (s_lit 0) v then v else s_lit 0.

(** [nn.Dropout] in training mode: every element is multiplied by a
    noise value, [1 / (1 - p)] where the coin keeps it and [0] where it
    drops it. *)
Definition dropout_noise (p : Q) (keep : bool) : scalar :=
  s_div (s_lit (if keep then 1 else 0)) (s_sub (s_lit 1) (s_lit p)).

Definition dropout (p : Q) (mask : list bool) (x : tensor scalar) : tensor scalar :=
  Tensor (shape x) (zip_with (fun v k => s_mul v (dropout_noise p k)) (data x) mask).

(** One module applied to [x].  [coin] is the random stream of the
    framework and [pos] the number of draws consumed so far; only dropout
    in training mode draws from it. *)
Definition layer_forward (training : bool) (coin : nat -> bool) (l : layer)
    (x : tensor scalar) (pos : nat) : result (tensor scalar * nat) :=
  match l with
  | Linear i o W b => y ← linear i o W b x; Ok (y, pos)
  | ReLU => Ok (tensor_map relu x, pos)
  | Dropout p =>
      if training then
        let n := length (data x) in
        Ok (dropout p (map coin (seq pos n)) x, pos + n)
      else Ok (x, pos)
  end.

(** [nn.Sequential.forward]: the modules in order. *)
Fixpoint Sequential_forward (training : bool) (coin : nat -> bool) (layers : list layer)
    (x : tensor scalar) (pos : nat) : result (tensor scalar * nat) :=
  match layers with
  | [] => Ok (x, pos)
  | l :: layers' =>
      r ← layer_forward training coin l x pos;
      Sequential_forward training coin layers' r.1 r.2
  end.

(** The trainable parameters, under the names of the state dictionary. *)
Record parameters : Type := {
  net_0_weight : list scalar;
  net_0_bias : list scalar;
  net_3_weight : list scalar;
  net_3_bias : list scalar
}.

(** A [MyModel] object: the sizes fixed by the constructor, the current
    parameter values and the mode flag of [nn.Module]. *)
Record MyModel : Type := {
  in_dim : nat;
  out_dim : nat;
  params : parameters;
  training : bool
}.

(** [MyModel.__init__]: [init] stands for the initial parameter values,
    which the framework draws at random; a new module is in training
    mode. *)
Definition MyModel_init (in_dim out_dim : nat) (init : parameters) : MyModel :=
  {| in_dim := in_dim; out_dim := out_dim; params := init; training := true |}.

(** [self.net] *)
Definition net (m : MyModel) : list layer :=
  [Linear (in_dim m) 128 (net_0_weight (params m)) (net_0_bias (params m));
   ReLU;
   Dropout (2 # 10);
   Linear 128 (out_dim m) (net_3_weight (params m)) (net_3_bias (params m))].

(** [MyModel.forward] *)
Definition MyModel_forward (m : MyModel) (coin : nat -> bool)
    (x : tensor scalar) (pos : nat) : result (tensor scalar * nat) :=
  let x := tensor_map (fun v => s_sub v (s_lit (1 # 2))) x in
  Sequential_forward (training m) coin (net m) x pos.

(** [model.train()] and [model.eval()] *)
Definition MyModel_train (m : MyModel) : MyModel :=
  {| in_dim := in_dim m; out_dim := out_dim m; params := params m; training := true |}.

Definition MyModel_eval (m : MyModel) : MyModel :=
  {| in_dim := in_dim m; out_dim := out_dim m; params := params m; training := false |}.

Definition with_params (m : MyModel) (p : parameters) : MyModel :=
  {| in_dim := in_dim m; out_dim := out_dim m; params := p; training := training m |}.

(** The forward computation as the text describes it, step by step. *)
Definition forward_steps (m : MyModel) (coin : nat -> bool)
    (x : tensor scalar) (pos : nat) : result (tensor scalar * nat) :=
  let centered := tensor_map (fun v => s_sub v (s_lit (1 # 2))) x in
  hidden ← linear (in_dim m) 128 (net_0_weight (params m)) (net_0_bias (params m)) centered;
  let active := tensor_map relu hidden in
  let n := length (data active) in
  let dropped := if training m then dropout (2 # 10) (map coin (seq pos n)) active
                 else active in
  let pos' := if training m then pos + n else pos in
  scores ← linear 128 (out_dim m) (net_3_weight (params m)) (net_3_bias (params m)) dropped;
  Ok (scores, pos').

End Model.

(** ** What the framework provides to the epoch loop

    The random stream of dropout, the value of the cross-entropy loss,
    the gradient buffers with their clearing and accumulation, and the
    update rule of the optimiser with its internal state. *)

Class Torch `{Sc : Scalar} : Type := {
  coin : nat -> bool;
  ce_loss : tensor scalar -> tensor Z -> scalar;
  gradient : Type;
  grad_zero : gradient -> gradient;
  grad_backward : MyModel -> tensor scalar -> tensor Z -> nat -> gradient -> gradient;
  opt_state : Type;
  opt_step : opt_state -> parameters -> gradient -> parameters * opt_state
}.

(** Calls into the framework, recorded in the order they are made. *)
Inductive call : Type :=
| CallForward
| CallCrossEntropy
| CallZeroGrad
| CallBackward
| CallStep.

(** A reference to the optimiser object; [None] is Python's [None]. *)
Inductive optimizer : Type := Optimizer.

Section Epoch.
Context `{T : Torch}.

(** The objects the loop works on: the model, the gradient buffers of its
    parameters, the state of the optimiser, the position in the random
    stream, and the record of framework calls. *)
Record world : Type := World {
  w_model : MyModel;
  w_grad : gradient;
  w_optim : opt_state;
  w_rng : nat;
  w_calls : list call
}.

(** Computations that read and write the world and may raise. *)
Definition M (A : Type) : Type := world -> result A * world.

#[export] Instance M_ret : MRet M := fun _ a w => (Ok a, w).
#[export] Instance M_bind : MBind M := fun _ _ f c w =>
  match c w with
  | (Ok a, w') => f a w'
  | (Err e, w') => (Err e, w')
  end.

Definition raise {A} (e : exn) : M A := fun w => (Err e, w).
Definition lift {A} (r : result A) : M A := fun w => (r, w).
Definition get : M world := fun w => (Ok w, w).

Definition modify (f : world -> world) : M unit := fun w => (Ok tt, f w).

Definition log (c : call) : M unit :=
  modify (fun w => World (w_model w) (w_grad w) (w_optim w) (w_rng w) (w_calls w ++ [c])).

(** [model(samples)] *)
Definition call_model (samples : tensor scalar) : M (tensor scalar) :=
  _ ← log CallForward;
  w ← get;
  r ← lift (MyModel_forward (w_model w) coin samples (w_rng w));
  _ ← modify (fun w => World (w_model w) (w_grad w) (w_optim w) r.2 (w_calls w));
  mret r.1.

(** A class index below [C], or the value that the loss ignores. *)
Definition valid_target (C : nat) (l : Z) : bool :=
  ((l =? -100)%Z || ((0 <=? l)%Z && (l <? Z.of_nat C)%Z))%bool.

(** [F.cross_entropy(out, labels)] on a matrix of scores and a vector of
    class indices (other ranks are not modelled). *)
Definition cross_entropy (out : tensor scalar) (labels : tensor Z) : M scalar :=
  _ ← log CallCrossEntropy;
  lift (match shape out, shape labels with
        | [B; C], [B'] =>
            if B =? B' then
              if forallb (valid_target C) (data labels) then Ok (ce_loss out labels)
              else Err IndexError
            else Err ValueError
        | _, _ => Err ValueError
        end).

(** [optimizer.zero_grad()] *)
Definition zero_grad : M unit :=
  _ ← log CallZeroGrad;
  modify (fun w => World (w_model w) (grad_zero (w_grad w)) (w_optim w) (w_rng w) (w_calls w)).

(** [loss.backward()]: the gradient of the loss that the forward pass of
    model [m] on the batch at random position [pos] led to is added to the
    buffers. *)
Definition backward (m : MyModel) (samples : tensor scalar) (labels : tensor Z)
    (pos : nat) : M unit :=
  _ ← log CallBackward;
  modify (fun w => World (w_model w) (grad_backward m samples labels pos (w_grad w))
                         (w_optim w) (w_rng w) (w_calls w)).

(** [optimizer.step()] *)
Definition step : M unit :=
  _ ← log CallStep;
  modify (fun w =>
    let r := opt_step (w_optim w) (params (w_model w)) (w_grad w) in
    World (with_params (w_model w) r.1) (w_grad w) r.2 (w_rng w) (w_calls w)).

(** [(pred == labels).sum().item()] for two integer tensors of one shape
    (broadcasting is not modelled: after the loss accepted its arguments
    the shapes agree). *)
Definition tensor_eq_count (pred labels : tensor Z) : result nat :=
  if bool_decide (shape pred = shape labels)
  then Ok (length (List.filter (fun pl => (pl.1 =? pl.2)%Z) (zip (data pred) (data labels))))
  else Err RuntimeError.

(** [n_correct / n_samples] on Python integers: the exact quotient
    (Python rounds it to a double). *)
Definition truediv (a b : nat) : result Q :=
  if b =? 0 then Err ZeroDivisionError
  else Ok (Z.of_nat a # Pos.of_nat b)%Q.

(** The body of the loop up to the update: forward pass, loss, and in
    train mode the three optimisation calls.  Gradient recording is taken
    to be enabled whenever the update is requested. *)
Definition loop_body (optimizer : option optimizer) (mode : string) (b : batch)
  : M (tensor scalar * scalar) :=
  let '(samples, labels) := b in
  w0 ← get;
  out ← call_model samples;
  loss ← cross_entropy out labels;
  _ ← (if String.eqb mode "train" then
         match optimizer with
         | None => raise AttributeError
         | Some _ =>
             _ ← zero_grad;
             _ ← backward (w_model w0) samples labels (w_rng w0);
             step
         end
       else mret tt);
  mret (out, loss).

(** The loop with its two counters and the loss variable, which is
    unbound before the first batch. *)
Fixpoint epoch_loop (optimizer : option optimizer) (mode : string) (loader : list batch)
    (n_samples n_correct : nat) (loss : option scalar) : M (Q * scalar) :=
  match loader with
  | [] =>
      acc ← lift (truediv n_correct n_samples);
      l ← lift (match loss with Some l => Ok l | None => Err UnboundLocalError end);
      mret (acc, l)
  | b :: rest =>
      r ← loop_body optimizer mode b;
      n ← lift (tensor_len b.1);
      pred ← lift (tensor_argmax1 r.1);
      c ← lift (tensor_eq_count pred b.2);
      epoch_loop optimizer mode rest (n_samples + n) (n_correct + c) (Some r.2)
  end.

(** [single_epoch_loop(model, loader, optimizer, mode)]; the model is the
    one of the world. *)
Definition single_epoch_loop (loader : list batch) (optimizer : option optimizer)
    (mode : string) : M (Q * scalar) :=
  epoch_loop optimizer mode loader 0 0 None.

(** The call with the default arguments [optimizer=None, mode='train']. *)
Definition single_epoch_loop_default (loader : list batch) : M (Q * scalar) :=
  single_epoch_loop loader None "train".

(** *** The quantities the specification speaks of *)

(** The batches with the scores and the loss computed for each, in order. *)
Fixpoint epoch_outputs (optimizer : option optimizer) (mode : string) (loader : list batch)
  : M (list (batch * tensor scalar * scalar)) :=
  match loader with
  | [] => mret []
  | b :: rest =>
      r ← loop_body optimizer mode b;
      rs ← epoch_outputs optimizer mode rest;
      mret ((b, r.1, r.2) :: rs)
  end.

(** The rows of a matrix. *)
Definition rows (t : tensor scalar) : list (list scalar) :=
  match shape t with
  | [a; b] => map (fun i => chunk b i (data t)) (seq 0 a)
  | _ => []
  end.

(** Samples of a batch whose predicted label, the argmax of the row of
    scores, is the true label. *)
Definition correct_count (out : tensor scalar) (labels : tensor Z) : nat :=
  length (List.filter (fun rl => (Z.of_nat (argmax rl.1) =? rl.2)%Z)
                      (zip (rows out) (data labels))).

Definition batch_count (b : batch) : nat := hd 0 (shape b.1).

Definition total_samples (rs : list (batch * tensor scalar * scalar)) : nat :=
  sum_list (map (fun r => batch_count r.1.1) rs).

Definition total_correct (rs : list (batch * tensor scalar * scalar)) : nat :=
  sum_list (map (fun r => correct_count r.1.2 r.1.1.2) rs).

(** The loss the loop ends with: the one of the last batch, or what the
    variable held before when there was no batch. *)
Definition final_loss (l0 : option scalar) (rs : list (batch * tensor scalar * scalar))
  : option scalar :=
  match last rs with
  | Some r => Some r.2
  | None => l0
  end.

(** The parts of the world that only the optimisation calls touch, and
    the calls that touch them. *)
Definition training_call (c : call) : bool :=
  match c with
  | CallZeroGrad | CallBackward | CallStep => true
  | _ => false
  end.

Definition untrained (w w' : world) : Prop :=
  w_model w' = w_model w /\ w_grad w' = w_grad w /\ w_optim w' = w_optim w /\
  exists new, w_calls w' = w_calls w ++ new /\ Forall (fun c => training_call c = false) new.

(** A computation that leaves the training state alone, whatever it
    returns or raises. *)
Definition preserves {A} (c : M A) : Prop := forall w, untrained w (c w).2.

(** A batch the model and the loss accept: [B > 0] samples of [in_dim]
    entries each and [B] class indices below [out_dim]. *)
Definition batch_ok (m : MyModel) (b : batch) : Prop :=
  exists B, 0 < B /\
    shape b.1 = [B; in_dim m] /\
    shape b.2 = [B] /\
    length (data b.2) = B /\
    Forall (fun l => (0 <= l < Z.of_nat (out_dim m))%Z) (data b.2).

End Epoch.

(** ** Checkpoints *)

(** The values a checkpoint dictionary holds. *)
Inductive ckpt_value `{T : Torch} : Type :=
| VInt (z : Z)
| VFloat (q : Q)
| VModelState (d : gmap string (tensor scalar))
| VOptimState (o : opt_state).

(** The serialiser behind [torch.save] and [torch.load]. *)
Class Pickle `{T : Torch} : Type := {
  blob : Type;
  pickle : gmap string ckpt_value -> blob;
  unpickle : blob -> result (gmap string ckpt_value)
}.

(** It is lossless: what was written is what is read back. *)
Class PickleLossless `{P : Pickle} : Prop := {
  unpickle_pickle : forall c, unpickle (pickle c) = Ok c
}.

Section Checkpoint.
Context `{P : Pickle}.

(** [model.state_dict()]: the parameter tensors under their names. *)
Definition state_dict (m : MyModel) : gmap string (tensor scalar) :=
  {[ "net.0.weight" := Tensor [128; in_dim m] (net_0_weight (params m));
     "net.0.bias" := Tensor [128] (net_0_bias (params m));
     "net.3.weight" := Tensor [out_dim m; 128] (net_3_weight (params m));
     "net.3.bias" := Tensor [out_dim m] (net_3_bias (params m)) ]}.

(** One parameter of [load_state_dict]: the stored tensor is copied when
    it is present with the expected shape; otherwise the parameter keeps
    its value and an error is noted. *)
Definition load_param (sd : gmap string (tensor scalar)) (key : string)
    (expected : list nat) (old : list scalar) : list scalar * bool :=
  match sd !! key with
  | Some t => if bool_decide (shape t = expected) then (data t, true) else (old, false)
  | None => (old, false)
  end.

(** [model.load_state_dict(sd, strict=True)]: missing keys, unexpected
    keys and shape mismatches are errors, raised after the matching
    parameters have been copied. *)
Definition load_state_dict (m : MyModel) (sd : gmap string (tensor scalar))
  : result unit * MyModel :=
  let w0 := load_param sd "net.0.weight" [128; in_dim m] (net_0_weight (params m)) in
  let b0 := load_param sd "net.0.bias" [128] (net_0_bias (params m)) in
  let w3 := load_param sd "net.3.weight" [out_dim m; 128] (net_3_weight (params m)) in
  let b3 := load_param sd "net.3.bias" [out_dim m] (net_3_bias (params m)) in
  let m' := with_params m {| net_0_weight := w0.1; net_0_bias := b0.1;
                             net_3_weight := w3.1; net_3_bias := b3.1 |} in
  if (w0.2 && b0.2 && w3.2 && b3.2 && bool_decide (dom sd ⊆ dom (state_dict m)))%bool
  then (Ok tt, m')
  else (Err RuntimeError, m').

Definition model_load_state_dict (v : ckpt_value) : M unit :=
  match v with
  | VModelState sd => fun w =>
      let r := load_state_dict (w_model w) sd in
      (r.1, World r.2 (w_grad w) (w_optim w) (w_rng w) (w_calls w))
  | _ => raise AttributeError
  end.

(** [optimizer.load_state_dict(sd)]: the state of the same optimiser is
    taken over. *)
Definition optimizer_load_state_dict (v : ckpt_value) : M unit :=
  match v with
  | VOptimState o =>
      modify (fun w => World (w_model w) (w_grad w) o (w_rng w) (w_calls w))
  | _ => raise TypeError
  end.

(** [d[key]] *)
Definition dict_get (d : gmap string ckpt_value) (key : string) : result ckpt_value :=
  match d !! key with
  | Some v => Ok v
  | None => Err KeyError
  end.

(** The file system: the contents of the files by path. *)
Definition torch_save (obj : gmap string ckpt_value) (path : string)
    (fs : gmap string blob) : gmap string blob :=
  <[path := pickle obj]> fs.

Definition torch_load (path : string) (fs : gmap string blob)
  : result (gmap string ckpt_value) :=
  match fs !! path with
  | Some b => unpickle b
  | None => Err FileNotFoundError
  end.

(** The record that is saved, with its four fields. *)
Definition checkpoint_record (epoch : Z) (m : MyModel) (o : opt_state) (best_acc : Q)
  : gmap string ckpt_value :=
  {[ "epoch" := VInt epoch;
     "model_state_dict" := VModelState (state_dict m);
     "optimizer_state_dict" := VOptimState o;
     "best_acc" := VFloat best_acc ]}.

Definition save (path : string) (epoch : Z) (m : MyModel) (o : opt_state) (best_acc : Q)
    (fs : gmap string blob) : gmap string blob :=
  torch_save (checkpoint_record epoch m o best_acc) path fs.

(** The loading statements: the model and the optimiser take their states
    from the file, and the two scalars are returned. *)
Definition load (path : string) (fs : gmap string blob) : M (ckpt_value * ckpt_value) :=
  ckpnt ← lift (torch_load path fs);
  msd ← lift (dict_get ckpnt "model_state_dict");
  _ ← model_load_state_dict msd;
  osd ← lift (dict_get ckpnt "optimizer_state_dict");
  _ ← optimizer_load_state_dict osd;
  start_epoch ← lift (dict_get ckpnt "epoch");
  val_acc_prev_best ← lift (dict_get ckpnt "best_acc");
  mret (start_epoch, val_acc_prev_best).

(** The two cells of the notebook: after the loop variable [epoch] and
    the last test accuracy, the next epoch index is what is stored. *)
Definition save_cell (epoch : Z) (test_acc : Q) (w : world) (fs : gmap string blob)
  : gmap string blob :=
  save "ckpt.pt" (epoch + 1) (w_model w) (w_optim w) test_acc fs.

Definition load_cell (fs : gmap string blob) : M (ckpt_value * ckpt_value) :=
  load "ckpt.pt" fs.

End Checkpoint.

(** ** A small instance to run the loop on

    Exact rationals, a stand-in for the loss value, counters for the
    gradient buffers and the optimiser state, and an update that shifts
    the last bias; a model with two inputs and three classes, and a loader
    of two batches. *)

#[export] Instance demo_torch : @Torch Q_scalar := {|
  coin := fun k => negb (k mod 5 =? 0);
  ce_loss := fun out labels => s_sum (data out);
  gradient := nat;
  grad_zero := fun _ => 0;
  grad_backward := fun _ _ _ _ g => S g;
  opt_state := nat;
  opt_step := fun o p g =>
    ({| net_0_weight := net_0_weight p; net_0_bias := net_0_bias p;
        net_3_weight := net_3_weight p;
        net_3_bias := map (Qplus 1) (net_3_bias p) |}, S o)
|}.

Definition demo_params : parameters := {|
  net_0_weight := map (fun k => (Z.of_nat (k mod 7) - 3 # 4)%Q) (seq 0 256);
  net_0_bias := map (fun k => (Z.of_nat (k mod 3) # 8)%Q) (seq 0 128);
  net_3_weight := map (fun k => (Z.of_nat (k mod 11) - 5 # 16)%Q) (seq 0 384);
  net_3_bias := [0; 1 # 2; 0]%Q
|}.

Definition demo_model : MyModel := MyModel_init 2 3 demo_params.

Definition demo_world : world :=
  World demo_model 0 0 0 [].

Definition demo_loader : list batch :=
  [ (Tensor [2; 2] [1 # 4; 3 # 4; 1 # 2; 1 # 8]%Q, Tensor [2] [1; 0]%Z);
    (Tensor [1; 2] [7 # 8; 1 # 8]%Q, Tensor [1] [2%Z]) ].

(** A serialiser that stores the dictionary itself. *)
#[export] Instance demo_pickle : @Pickle Q_scalar demo_torch := {|
  blob := gmap string ckpt_value;
  pickle := fun c => c;
  unpickle := fun b => Ok b
|}.

(** ** Further definitions *)

Section ExtraDefs.
Context `{T : Torch}.

(** The sizes of the model and its mode flag. *)
Definition same_architecture (w w' : world) : Prop :=
  in_dim (w_model w') = in_dim (w_model w) /\
  out_dim (w_model w') = out_dim (w_model w) /\
  training (w_model w') = training (w_model w).

(** A computation whose final world is related to the initial one. *)
Definition keeps (R : world -> world -> Prop) {A} (c : M A) : Prop :=
  forall w, R w (c w).2.

(** The framework calls one batch gives rise to. *)
Definition calls_per_batch (mode : string) : list call :=
  [CallForward; CallCrossEntropy] ++
  (if String.eqb mode "train" then [CallZeroGrad; CallBackward; CallStep] else []).

(** *** The train/test script *)

(** [model.train()] and [model.eval()] on the model of the world. *)
Definition set_training (flag : bool) : M unit :=
  modify (fun w =>
    World (if flag then MyModel_train (w_model w) else MyModel_eval (w_model w))
          (w_grad w) (w_optim w) (w_rng w) (w_calls w)).

(** One line of the console: what [print] is given. *)
Record console_line : Type := {
  line_epoch : nat;
  line_train_acc : Q;
  line_train_loss : scalar;
  line_test_acc : Q;
  line_test_loss : scalar
}.

(** The body of the loop over the epochs, up to the [print]: a training
    pass in training mode with the optimiser, then a test pass in
    evaluation mode without it.  [draws] is the random source of the
    shuffle of this epoch.  ([torch.no_grad()] only affects gradient
    recording, which no call made in mode 'test' needs.)  Creating the
    iterator of a loader draws a seed from the generator that dropout
    also reads; this draw is not modelled, and nothing is stated about
    the position of the random source after an iteration. *)
Definition epoch_iteration (train_dl test_dl : DataLoader) (draws : nat -> nat)
  : M ((Q * scalar) * (Q * scalar)) :=
  _ ← set_training true;
  train_batches ← lift (DataLoader_iter train_dl draws);
  tr ← single_epoch_loop train_batches (Some Optimizer) "train";
  _ ← set_training false;
  test_batches ← lift (DataLoader_iter test_dl draws);
  te ← single_epoch_loop test_batches None "test";
  mret (tr, te).

(** The loop over the epochs with the console it writes to; an exception
    ends it. *)
Fixpoint training_loop (epochs : list nat) (train_dl test_dl : DataLoader)
    (draws : nat -> nat -> nat) (console : list console_line) (w : world)
  : result unit * world * list console_line :=
  match epochs with
  | [] => (Ok tt, w, console)
  | epoch :: rest =>
      match epoch_iteration train_dl test_dl (draws epoch) w with
      | (Ok (tr, te), w') =>
          training_loop rest train_dl test_dl draws
            (console ++ [{| line_epoch := epoch;
                            line_train_acc := tr.1; line_train_loss := tr.2;
                            line_test_acc := te.1; line_test_loss := te.2 |}]) w'
      | (Err e, w') => (Err e, w', console)
      end
  end.

(** [for epoch in range(20): ...] *)
Definition training_script (train_dl test_dl : DataLoader) (draws : nat -> nat -> nat)
    (w : world) : result unit * world * list console_line :=
  training_loop (seq 0 20) train_dl test_dl draws [] w.

(** The framework calls of one epoch of the script over [n_train] training
    batches and [n_test] test batches. *)
Definition calls_per_epoch (n_train n_test : nat) : list call :=
  concat (replicate n_train (calls_per_batch "train")) ++
  concat (replicate n_test (calls_per_batch "test")).

End ExtraDefs.

Section NotebookDefs.
Context `{P : Pickle}.

(** The script followed by the save and load cells, which use the last
    values of [epoch] and [test_acc]. *)
Definition notebook_run (train_dl test_dl : DataLoader) (draws : nat -> nat -> nat)
    (w : world) (fs : gmap string blob)
  : result (ckpt_value * ckpt_value) * world * list console_line :=
  match training_script train_dl test_dl draws w with
  | (Ok _, w', console) =>
      match last console with
      | Some l =>
          let fs' := save_cell (Z.of_nat (line_epoch l)) (line_test_acc l) w' fs in
          let r := load_cell fs' w' in
          (r.1, r.2, console)
      | None => (Err UnboundLocalError, w', console)
      end
  | (Err e, w', console) => (Err e, w', console)
  end.

End NotebookDefs.

(** A model of the notebook's sizes and a data set large enough for one
    training batch. *)
Definition demo_params_256 : parameters := {|
  net_0_weight := replicate (128 * 256) (1 # 256)%Q;
  net_0_bias := replicate 128 0%Q;
  net_3_weight := replicate (4 * 128) (1 # 128)%Q;
  net_3_bias := replicate 4 0%Q
|}.

Definition demo_world_256 : world :=
  World (T := demo_torch) (MyModel_init 256 4 demo_params_256) 0 0 0 [].

Definition demo_train_dataset : MyDataset :=
  match MyDataset_init demo_rand 300 with
  | Ok d => d
  | Err _ => empty_dataset
  end.

Definition demo_train_loader : DataLoader :=
  {| dataset := demo_train_dataset; batch_size := 256; shuffle := true;
     drop_last := true; num_workers := 2 |}.

Definition demo_test_loader : DataLoader :=
  {| dataset := demo_dataset; batch_size := 256; shuffle := false;
     drop_last := false; num_workers := 2 |}.

(** The demonstration world after [model.eval()]. *)
Definition demo_eval_world : world :=
  World (T := demo_torch) (MyModel_eval demo_model) 0 0 0 [].

(** * Properties *)

(** ** Lists cut into chunks *)

Lemma chunk_map {A B} (f : A -> B) c k (l : list A) :
  chunk c k (map f l) = map f (chunk c k l).
Proof. unfold chunk. by rewrite List.skipn_map, List.firstn_map. Qed.

Lemma chunk_seq s n c k : (k + 1) * c <= n -> chunk c k (seq s n) = seq (s + k * c) c.
Proof. intros Hle. unfold chunk. rewrite drop_seq, take_seq. f_equal. lia. Qed.

Lemma chunk_length {A} c k (l : list A) :
  (k + 1) * c <= length l -> length (chunk c k l) = c.
Proof. intros Hle. unfold chunk. rewrite length_take, length_drop. lia. Qed.

Lemma chunk_sub {A} (l : list A) c d i o :
  o + d <= c -> take d (drop o (chunk c i l)) = take d (drop (i * c + o) l).
Proof.
  intros Hle. unfold chunk.
  replace c with (o + (c - o)) at 1 by lia.
  rewrite <- take_drop_commute, take_take, drop_drop.
  f_equal. lia.
Qed.

Lemma chunk_tail {A} (l : list A) c i o :
  o <= c -> drop o (chunk c i l) = take (c - o) (drop (i * c + o) l).
Proof.
  intros Hle. unfold chunk.
  replace c with (o + (c - o)) at 1 by lia.
  by rewrite <- take_drop_commute, drop_drop.
Qed.

Lemma chunk_one {A} (l : list A) i x : l !! i = Some x -> chunk 1 i l = [x].
Proof.
  intros Hx. unfold chunk. rewrite Nat.mul_1_r.
  by rewrite (drop_S _ _ _ Hx).
Qed.

(** ** The first maximum *)

Section ArgMax.
Context `{ScalarOrder}.

Lemma argmax_from_spec (l pre : list scalar) (best : scalar) (bi : nat) :
  pre !! bi = Some best ->
  (forall j y, pre !! j = Some y -> s_ltb best y = false) ->
  (forall j y, j < bi -> pre !! j = Some y -> s_ltb y best = true) ->
  first_max (pre ++ l) (argmax_from best bi (length pre) l).
Proof.
  revert pre best bi.
  induction l as [|x l IH]; intros pre best bi Hbest Hge Hlt; simpl.
  - rewrite app_nil_r. by exists best.
  - replace (pre ++ x :: l) with ((pre ++ [x]) ++ l) by by rewrite <- app_assoc.
    replace (S (length pre)) with (length (pre ++ [x])) by (rewrite length_app; simpl; lia).
    destruct (s_ltb best x) eqn:Hbx.
    + apply IH.
      * by rewrite lookup_app_r, Nat.sub_diag.
      * intros j y Hy. apply lookup_app_Some in Hy as [Hy | [_ Hy]].
        -- destruct (s_ltb x y) eqn:Hxy; [|done].
           pose proof (s_ltb_trans _ _ _ Hbx Hxy) as Hby.
           rewrite (Hge _ _ Hy) in Hby. discriminate.
        -- apply list_lookup_singleton_Some in Hy as [_ <-]. apply s_ltb_irrefl.
      * intros j y Hj Hy. rewrite lookup_app_l in Hy by done.
        destruct (s_ltb y x) eqn:Hyx; [done|].
        rewrite (s_ltb_negtrans _ _ _ (Hge _ _ Hy) Hyx) in Hbx. discriminate.
    + apply IH.
      * rewrite lookup_app_l; [done|]. by apply lookup_lt_Some in Hbest.
      * intros j y Hy. apply lookup_app_Some in Hy as [Hy | [_ Hy]].
        -- by apply (Hge j).
        -- by apply list_lookup_singleton_Some in Hy as [_ <-].
      * intros j y Hj Hy. apply (Hlt j); [done|].
        rewrite lookup_app_l in Hy; [done|].
        apply lookup_lt_Some in Hbest. lia.
Qed.

Lemma argmax_first_max (l : list scalar) : l <> [] -> first_max l (argmax l).
Proof.
  destruct l as [|x l]; [done|]. intros _.
  apply (argmax_from_spec l [x] x 0); [done| |].
  - intros j y Hy. apply list_lookup_singleton_Some in Hy as [_ <-]. apply s_ltb_irrefl.
  - intros j y Hj. lia.
Qed.

Lemma first_max_lt (l : list scalar) i : first_max l i -> i < length l.
Proof. intros (x & Hx & _). by apply lookup_lt_Some in Hx. Qed.

End ArgMax.

(** ** The data set *)

Section DatasetFacts.
Context `{Sc : Scalar}.

Lemma numel2 a b : numel [a; b] = a * b.
Proof. unfold numel. simpl. lia. Qed.

Lemma infer_size_labels N :
  infer_size [Z.of_nat N; 4%Z; (-1)%Z] (numel [N; 256]) =
  if N =? 0 then Err RuntimeError else Ok [N; 4; 64].
Proof.
  unfold infer_size, known_size.
  assert (Hneg : (Z.of_nat N <? -1)%Z = false) by (apply Z.ltb_ge; lia).
  assert (Hpos : (0 <=? Z.of_nat N)%Z = true) by (apply Z.leb_le; lia).
  assert (Hm1 : (Z.of_nat N =? -1)%Z = false) by (apply Z.eqb_neq; lia).
  cbn [existsb List.filter map length orb]. rewrite Hneg, Hpos, Hm1.
  cbn [existsb List.filter map length orb Z.ltb Z.leb Z.eqb Z.compare Pos.compare Pos.compare_cont Pos.eqb].
  change ((-1 <? -1)%Z) with false. cbn [orb].
  rewrite Nat2Z.id. change (Z.to_nat 4) with 4. rewrite !numel2.
  replace (N * 256) with (64 * (N * 4)) by lia.
  rewrite Nat.Div0.mod_mul.
  destruct (Nat.eqb_spec N 0) as [->|HN].
  - reflexivity.
  - rewrite Nat.div_mul by lia.
    rewrite Nat.eqb_refl, andb_true_r.
    assert (Hlt : (0 <? N * 4) = true) by (apply Nat.ltb_lt; lia).
    assert (Hz : (N * 4 =? 0) = false) by (apply Nat.eqb_neq; lia).
    by rewrite Hlt, Hz, orb_true_r.
Qed.

Lemma MyDataset_init_zero (g : nat -> scalar) : MyDataset_init g 0 = Err RuntimeError.
Proof. reflexivity. Qed.

Lemma patch_of_row (D : list scalar) i o k :
  o + 64 <= 256 -> k * 64 = i * 256 + o ->
  take 64 (drop o (chunk 256 i D)) = chunk 64 k D.
Proof.
  intros Ho Hk. rewrite chunk_sub by done. unfold chunk. by rewrite Hk.
Qed.

Lemma labels_row (D : list scalar) (N i : nat) :
  i < N ->
  Z.of_nat (argmax (chunk 4 i (map (fun k => mean (chunk 64 k D)) (seq 0 (numel [N; 4])))))
  = derive_label (chunk 256 i D).
Proof.
  intros Hi. unfold derive_label, patch_means, patches. do 2 f_equal.
  rewrite chunk_map, numel2, chunk_seq by lia.
  change (seq (0 + i * 4) 4)
    with [0 + i * 4; S (0 + i * 4); S (S (0 + i * 4)); S (S (S (0 + i * 4)))].
  cbn [map].
  change (take 64 (chunk 256 i D)) with (take 64 (drop 0 (chunk 256 i D))).
  rewrite (patch_of_row D i 0 (0 + i * 4)) by lia.
  rewrite (patch_of_row D i 64 (S (0 + i * 4))) by lia.
  rewrite (patch_of_row D i 128 (S (S (0 + i * 4)))) by lia.
  rewrite (chunk_tail D 256 i 192) by lia.
  replace (256 - 192) with 64 by lia.
  replace (i * 256 + 192) with (S (S (S (0 + i * 4))) * 64) by lia.
  reflexivity.
Qed.

(** What the constructor builds: it fails on [N = 0], where the [-1] of
    the reshape cannot be inferred, and otherwise stores the [N * 256]
    draws together with one label per row. *)
Lemma MyDataset_init_Ok (g : nat -> scalar) (N : nat) (ds : MyDataset) :
  MyDataset_init g N = Ok ds ->
  N <> 0 /\
  samples ds = torch_rand g [N; 256] /\
  labels ds =
    Tensor [N] (map (fun i => derive_label (chunk 256 i (data (samples ds)))) (seq 0 N)).
Proof.
  unfold MyDataset_init, reshape. cbn [shape data torch_rand mbind result_bind].
  rewrite infer_size_labels.
  destruct (Nat.eqb_spec N 0) as [->|HN]; [discriminate|].
  cbn [mbind result_bind]. unfold tensor_mean_last, tensor_argmax1.
  cbn [shape data List.removelast List.last Nat.eqb].
  intros [= <-]. cbn [samples labels data]. repeat split; [done|].
  f_equal. apply map_ext_in. intros i Hi%in_seq.
  apply labels_row with (N := N). lia.
Qed.

Lemma MyDataset_init_succeeds (g : nat -> scalar) (N : nat) :
  N <> 0 -> is_Ok (MyDataset_init g N).
Proof.
  intros HN. unfold MyDataset_init, reshape. cbn [shape data torch_rand mbind result_bind].
  rewrite infer_size_labels. destruct (Nat.eqb_spec N 0); [done|].
  cbn. by eexists.
Qed.

Lemma MyDataset_getitem_spec (g : nat -> scalar) (N : nat) (ds : MyDataset) (i : Z) :
  MyDataset_init g N = Ok ds ->
  MyDataset_getitem ds i =
    let k := wrap_index N i in
    if ((0 <=? k)%Z && (k <? Z.of_nat N)%Z)%bool
    then
      let row := chunk 256 (Z.to_nat k) (data (samples ds)) in
      Ok (Tensor [256] row, Tensor [] [derive_label row])
    else if fits_int64 i then Err IndexError else Err ValueError.
Proof.
  intros (HN & Hs & Hl)%MyDataset_init_Ok.
  unfold MyDataset_getitem, tensor_index, wrap_index. rewrite Hl.
  set (D := data (samples ds)). rewrite Hs. cbn [shape data torch_rand].
  fold (wrap_index N i). set (k := wrap_index N i). cbv zeta.
  destruct ((0 <=? k)%Z && (k <? Z.of_nat N)%Z)%bool eqn:Hk;
    [|by destruct (fits_int64 i)].
  apply andb_prop in Hk as [Hk0%Z.leb_le HkN%Z.ltb_lt].
  cbn [mbind result_bind]. 
  rewrite chunk_map, chunk_seq by (change (numel []) with 1; lia).
  change (numel [256]) with 256. change (numel []) with 1.
  cbn [seq map]. subst D. rewrite Hs. cbn [data torch_rand].
  replace (0 + Z.to_nat k * 1) with (Z.to_nat k) by lia. reflexivity.
Qed.

Lemma MyDataset_getitem_succeeds (g : nat -> scalar) (N : nat) (ds : MyDataset) (i : Z) :
  MyDataset_init g N = Ok ds ->
  (- Z.of_nat N <= i < Z.of_nat N)%Z -> is_Ok (MyDataset_getitem ds i).
Proof.
  intros Hinit Hi. rewrite (MyDataset_getitem_spec g N ds i Hinit). cbv zeta.
  unfold wrap_index.
  destruct (Z.ltb_spec i 0).
  - destruct (Z.leb_spec 0 (i + Z.of_nat N)); [|lia].
    destruct (Z.ltb_spec (i + Z.of_nat N) (Z.of_nat N)); [|lia]. by eexists.
  - destruct (Z.leb_spec 0 i); [|lia].
    destruct (Z.ltb_spec i (Z.of_nat N)); [|lia]. by eexists.
Qed.

Lemma patches_cover (v : list scalar) :
  length v = 256 -> concat (patches v) = v /\ Forall (fun p => length p = 64) (patches v).
Proof.
  intros Hv. unfold patches. split.
  - cbn [concat]. rewrite app_nil_r.
    replace (drop 192 v) with (drop 64 (drop 128 v)) by (rewrite drop_drop; f_equal; lia).
    rewrite take_drop.
    replace (drop 128 v) with (drop 64 (drop 64 v)) by (rewrite drop_drop; f_equal; lia).
    by rewrite !take_drop.
  - repeat apply Forall_cons_2; [..|apply Forall_nil_2];
      rewrite ?length_take, ?length_drop; lia.
Qed.

End DatasetFacts.

(** Exact rationals are ordered as required. *)
Lemma Q_ltb_lt (x y : Q) : Q_ltb x y = true <-> (x < y)%Q.
Proof.
  unfold Q_ltb. rewrite negb_true_iff. split.
  - intros Hf. apply Qnot_le_lt. intros Hle%Qle_bool_iff. congruence.
  - intros Hlt. destruct (Qle_bool y x) eqn:E; [|done].
    apply Qle_bool_iff in E. lra.
Qed.

Lemma Q_ltb_ge (x y : Q) : Q_ltb x y = false <-> (y <= x)%Q.
Proof.
  unfold Q_ltb. rewrite negb_false_iff. apply Qle_bool_iff.
Qed.

#[export] Instance Q_order : @ScalarOrder Q_scalar.
Proof.
  split; cbn [s_ltb Q_scalar scalar].
  - intros x. apply Q_ltb_ge. lra.
  - intros x y z Hxy%Q_ltb_lt Hyz%Q_ltb_lt. apply Q_ltb_lt. lra.
  - intros x y z Hxy%Q_ltb_ge Hyz%Q_ltb_ge. apply Q_ltb_ge. lra.
Qed.

(** The demonstration data set is the one the constructor builds. *)
Lemma demo_dataset_built : @MyDataset_init Q_scalar demo_rand 2 = Ok demo_dataset.
Proof.
  unfold demo_dataset.
  destruct (MyDataset_init_succeeds (Sc := Q_scalar) demo_rand 2) as [d ->]; [lia|done].
Qed.

Lemma demo_getitem (i : Z) :
  ((-2 <=? i)%Z && (i <? 2)%Z)%bool = true ->
  MyDataset_getitem demo_dataset i = Ok (demo_item i).
Proof.
  intros Hi. unfold demo_item.
  destruct (MyDataset_getitem demo_dataset i) as [p|e] eqn:E; [done|].
  exfalso. apply andb_prop in Hi as [Hlo%Z.leb_le Hhi%Z.ltb_lt].
  destruct (MyDataset_getitem_succeeds (Sc := Q_scalar) demo_rand 2 demo_dataset i
              demo_dataset_built)
    as [p Hp]; [lia|]. congruence.
Qed.

(** C1. In every data set that the constructor builds, every item has a
    sample of length 256 made of four contiguous patches of 64 elements,
    and its stored label is the position of the greatest of the four
    patch means, the first one among equal means; so it is one of
    0, 1, 2, 3. *)
Theorem C1_stored_label_is_first_max_patch_mean
  `{Sc : Scalar} `{!ScalarOrder}
  (g : nat -> scalar) (N : nat) (ds : MyDataset) (index : Z)
  (s : tensor scalar) (l : tensor Z) :
  MyDataset_init g N = Ok ds ->
  MyDataset_getitem ds index = Ok (s, l) ->
  shape s = [256] /\ length (data s) = 256 /\
  concat (patches (data s)) = data s /\
  Forall (fun p => length p = 64) (patches (data s)) /\
  exists lab : nat,
    l = Tensor [] [Z.of_nat lab] /\
    Z.of_nat lab = derive_label (data s) /\
    first_max (patch_means (data s)) lab /\
    lab < 4.
Proof.
  intros Hinit Hget.
  rewrite (MyDataset_getitem_spec g N ds index Hinit) in Hget. cbv zeta in Hget.
  destruct ((0 <=? wrap_index N index)%Z && (wrap_index N index <? Z.of_nat N)%Z)%bool
    eqn:Hk; [|by destruct (fits_int64 index)].
  apply andb_prop in Hk as [Hk0%Z.leb_le HkN%Z.ltb_lt].
  injection Hget as <- <-. cbn [shape data].
  apply MyDataset_init_Ok in Hinit as (HN & Hs & _).
  set (row := chunk 256 _ _).
  assert (Hlen : length row = 256).
  { subst row. apply chunk_length. rewrite Hs. cbn [data torch_rand].
    rewrite length_map, length_seq, numel2. lia. }
  destruct (patches_cover row Hlen) as [Hcat Hall].
  repeat split; try done.
  exists (argmax (patch_means row)).
  assert (Hfm : first_max (patch_means row) (argmax (patch_means row)))
    by by apply argmax_first_max.
  repeat split; try done.
  by apply first_max_lt in Hfm.
Qed.

Lemma C1_witness :
  exists lab : nat,
    (demo_item 1).2 = Tensor [] [Z.of_nat lab] /\
    Z.of_nat lab = derive_label (data (demo_item 1).1) /\
    first_max (patch_means (data (demo_item 1).1)) lab /\
    lab < 4.
Proof.
  refine (proj2 (proj2 (proj2 (proj2
    (C1_stored_label_is_first_max_patch_mean (Sc := Q_scalar)
       demo_rand 2 demo_dataset 1 (demo_item 1).1 (demo_item 1).2
       demo_dataset_built _))))).
  rewrite <- surjective_pairing. exact (demo_getitem 1 eq_refl).
Defined.

(** C4, as amended.  The length is [N]; an index [0 <= i < N] gives the
    pair at position [i]; an index [-N <= i < 0] counts from the end and
    gives the pair at position [N + i]; every other index is refused:
    with IndexError (out of range) when it fits a signed 64-bit integer,
    that is [-2^63 <= i < 2^63], and with ValueError (overflow when the
    index is unpacked) when it does not. *)
Theorem C4_getitem_in_range_wraps_negative
  `{Sc : Scalar} (g : nat -> scalar) (N : nat) (ds : MyDataset) :
  MyDataset_init g N = Ok ds ->
  MyDataset_len ds = Ok N /\
  (forall i : Z, (0 <= i < Z.of_nat N)%Z ->
     MyDataset_getitem ds i = Ok (item_at ds (Z.to_nat i))) /\
  (forall i : Z, (- Z.of_nat N <= i < 0)%Z ->
     MyDataset_getitem ds i = Ok (item_at ds (Z.to_nat (Z.of_nat N + i)))) /\
  (forall i : Z, (Z.of_nat N <= i \/ i < - Z.of_nat N)%Z ->
     (- 2 ^ 63 <= i < 2 ^ 63)%Z ->
     MyDataset_getitem ds i = Err IndexError) /\
  (forall i : Z, (Z.of_nat N <= i \/ i < - Z.of_nat N)%Z ->
     (i < - 2 ^ 63 \/ 2 ^ 63 <= i)%Z ->
     MyDataset_getitem ds i = Err ValueError).
Proof.
  intros Hinit.
  pose proof (MyDataset_getitem_spec g N ds) as Hspec.
  specialize (fun i => Hspec i Hinit). cbv zeta in Hspec.
  apply MyDataset_init_Ok in Hinit as (HN & Hs & Hl).
  assert (Hitem : forall k, k < N ->
            item_at ds k =
            (Tensor [256] (chunk 256 k (data (samples ds))),
             Tensor [] [derive_label (chunk 256 k (data (samples ds)))])).
  { intros k Hk. unfold item_at. rewrite Hl at 1. cbn [data].
    rewrite chunk_map, chunk_seq by lia. cbn [seq map].
    by replace (0 + k * 1) with k by lia. }
  assert (Hout : forall i : Z, (Z.of_nat N <= i \/ i < - Z.of_nat N)%Z ->
            MyDataset_getitem ds i
            = if fits_int64 i then Err IndexError else Err ValueError).
  { intros i Hi. rewrite Hspec. unfold wrap_index.
    destruct (Z.ltb_spec i 0) as [?|?].
    - destruct (Z.leb_spec 0 (i + Z.of_nat N)) as [?|?]; [|done].
      destruct (Z.ltb_spec (i + Z.of_nat N) (Z.of_nat N)) as [?|?]; [lia|done].
    - destruct (Z.leb_spec 0 i) as [?|?]; [|done].
      destruct (Z.ltb_spec i (Z.of_nat N)) as [?|?]; [lia|done]. }
  split; [|split; [|split; [|split]]].
  - unfold MyDataset_len, tensor_len. by rewrite Hs.
  - intros i Hi. rewrite Hspec. unfold wrap_index.
    destruct (Z.ltb_spec i 0) as [?|_]; [lia|].
    destruct (Z.leb_spec 0 i) as [_|?]; [|lia].
    destruct (Z.ltb_spec i (Z.of_nat N)) as [_|?]; [|lia].
    cbn [andb]. rewrite Hitem by lia. done.
  - intros i Hi. rewrite Hspec. unfold wrap_index.
    destruct (Z.ltb_spec i 0) as [_|?]; [|lia].
    destruct (Z.leb_spec 0 (i + Z.of_nat N)) as [_|?]; [|lia].
    destruct (Z.ltb_spec (i + Z.of_nat N) (Z.of_nat N)) as [_|?]; [|lia].
    cbn [andb]. rewrite Hitem by lia.
    by replace (Z.of_nat N + i)%Z with (i + Z.of_nat N)%Z by lia.
  - intros i Hi Hfit. rewrite (Hout i Hi). unfold fits_int64.
    destruct (Z.leb_spec (- 2 ^ 63) i) as [_|?]; [|lia].
    destruct (Z.ltb_spec i (2 ^ 63)) as [_|?]; [|lia]. done.
  - intros i Hi Hfit. rewrite (Hout i Hi). unfold fits_int64.
    destruct (Z.leb_spec (- 2 ^ 63) i) as [?|?]; [|done].
    destruct (Z.ltb_spec i (2 ^ 63)) as [?|?]; [lia|done].
Qed.

Lemma C4_witness :
  MyDataset_len demo_dataset = Ok 2 /\
  MyDataset_getitem demo_dataset (-1) = Ok (item_at demo_dataset 1) /\
  MyDataset_getitem demo_dataset 2 = Err IndexError /\
  MyDataset_getitem demo_dataset (2 ^ 63) = Err ValueError.
Proof.
  destruct (C4_getitem_in_range_wraps_negative (Sc := Q_scalar)
              demo_rand 2 demo_dataset demo_dataset_built)
    as (Hlen & _ & Hneg & Hout & Hover).
  split; [exact Hlen|]. split; [|split].
  - apply (Hneg (-1)%Z). lia.
  - apply (Hout 2%Z); lia.
  - apply (Hover (2 ^ 63)%Z); lia.
Defined.

(** C4 as stated fails: the index [-1] is negative, and it designates the
    last item instead of raising an error. *)
Lemma C4_counterexample :
  ~ (forall (g : nat -> Q) (N : nat) (ds : MyDataset) (i : Z),
       @MyDataset_init Q_scalar g N = Ok ds ->
       (Z.of_nat N <= i \/ i < 0)%Z ->
       is_Err (MyDataset_getitem ds i)).
Proof.
  intros Hclaim.
  destruct (Hclaim demo_rand 2 demo_dataset (-1)%Z demo_dataset_built) as [e He].
  - right. lia.
  - rewrite (demo_getitem (-1) eq_refl) in He. discriminate.
Qed.

(** ** The batch sampler and the loaders *)

Lemma insert_at_perm {A} (k : nat) (x : A) (l : list A) : insert_at k x l ≡ₚ x :: l.
Proof.
  unfold insert_at. rewrite <- Permutation_middle. by rewrite take_drop.
Qed.

Lemma randperm_fold_perm (draws : nat -> nat) (ixs acc : list nat) :
  fold_left (fun acc i => insert_at (draws i mod S (length acc)) i acc) ixs acc
  ≡ₚ acc ++ ixs.
Proof.
  revert acc. induction ixs as [|i ixs IH]; intros acc; simpl.
  - by rewrite app_nil_r.
  - rewrite IH, insert_at_perm. by rewrite <- Permutation_middle.
Qed.

(** The shuffled order is a permutation of the indices. *)
Lemma randperm_perm (draws : nat -> nat) (n : nat) : randperm draws n ≡ₚ seq 0 n.
Proof. unfold randperm. by rewrite randperm_fold_perm. Qed.

Lemma pass_sizes_step (n bs : nat) (dl : bool) :
  bs <> 0 -> pass_sizes (bs + n) bs dl = bs :: pass_sizes n bs dl.
Proof.
  intros Hbs. unfold pass_sizes.
  replace (bs + n) with (1 * bs + n) by lia.
  rewrite Nat.div_add_l by done.
  replace (1 * bs + n) with (n + 1 * bs) by lia.
  by rewrite Nat.Div0.mod_add.
Qed.

Lemma pass_sizes_small (n bs : nat) (dl : bool) :
  n < bs -> pass_sizes n bs dl = if ((0 <? n) && negb dl)%bool then [n] else [].
Proof.
  intros Hn. unfold pass_sizes.
  rewrite Nat.div_small, Nat.mod_small by done. cbn [replicate app].
  destruct dl; cbn [orb negb andb]; [by rewrite andb_false_r|].
  rewrite andb_true_r. by destruct n.
Qed.

(** Sizes and contents of the groups the batch sampler emits. *)
Lemma batch_sampler_sizes (bs : nat) (dl : bool) (idxs cur : list nat) :
  length cur < bs ->
  map length (batch_sampler bs dl idxs cur)
  = pass_sizes (length cur + length idxs) bs dl.
Proof.
  revert cur. induction idxs as [|i idxs IH]; intros cur Hcur; cbn [batch_sampler length].
  - rewrite Nat.add_0_r, pass_sizes_small by done.
    by destruct ((0 <? length cur) && negb dl)%bool.
  - rewrite length_app. cbn [length].
    destruct (Nat.eqb_spec (length cur + 1) bs) as [Heq|Hne].
    + cbn [map]. rewrite IH by (cbn [length]; lia). cbn [length].
      rewrite length_app. cbn [length].
      replace (length cur + S (length idxs)) with (bs + length idxs) by lia.
      rewrite pass_sizes_step by lia. by rewrite Heq.
    + rewrite IH by (rewrite length_app; cbn [length]; lia).
      rewrite length_app. cbn [length]. f_equal. lia.
Qed.

Lemma batch_sampler_subset (bs : nat) (dl : bool) (idxs cur : list nat) (P : nat -> Prop) :
  Forall P cur -> Forall P idxs ->
  Forall (Forall P) (batch_sampler bs dl idxs cur).
Proof.
  revert cur. induction idxs as [|i idxs IH]; intros cur Hcur Hidx; cbn [batch_sampler].
  - destruct ((0 <? length cur) && negb dl)%bool; by repeat constructor.
  - apply Forall_cons in Hidx as [Hi Hidx].
    assert (Forall P (cur ++ [i])) by (apply Forall_app; by repeat constructor).
    destruct (length (cur ++ [i]) =? bs).
    + constructor; [done|]. by apply IH.
    + by apply IH.
Qed.

(** Without drop-last no index is lost and the order is kept. *)
Lemma batch_sampler_concat (bs : nat) (idxs cur : list nat) :
  concat (batch_sampler bs false idxs cur) = cur ++ idxs.
Proof.
  revert cur. induction idxs as [|i idxs IH]; intros cur; cbn [batch_sampler].
  - rewrite andb_true_r, app_nil_r. destruct cur; [done|]. cbn. by rewrite app_nil_r.
  - destruct (length (cur ++ [i]) =? bs).
    + cbn [concat]. rewrite IH. by rewrite <- app_assoc.
    + rewrite IH. by rewrite <- app_assoc.
Qed.

Lemma pass_sizes_pos (n bs : nat) (dl : bool) :
  bs <> 0 -> Forall (fun k => 0 < k) (pass_sizes n bs dl).
Proof.
  intros Hbs. unfold pass_sizes. apply Forall_app. split.
  - apply Forall_replicate. lia.
  - destruct dl; cbn [orb]; [constructor|].
    destruct (Nat.eqb_spec (n mod bs) 0); repeat constructor. lia.
Qed.

Lemma pass_sizes_sum (n bs : nat) : bs <> 0 -> sum_list (pass_sizes n bs false) = n.
Proof.
  intros Hbs. unfold pass_sizes. cbn [orb].
  rewrite sum_list_with_app, sum_list_replicate.
  pose proof (Nat.div_mod_eq n bs) as Hdm.
  destruct (Nat.eqb_spec (n mod bs) 0); simpl; unfold id; lia.
Qed.

Lemma pass_sizes_drop (n bs : nat) : pass_sizes n bs true = replicate (n / bs) bs.
Proof. unfold pass_sizes. cbn [orb]. by rewrite app_nil_r. Qed.

Lemma mapM_result_Ok {A B} (f : A -> result B) (h : A -> B) (l : list A) :
  Forall (fun x => f x = Ok (h x)) l -> mapM f l = Ok (map h l).
Proof.
  induction 1 as [|x l Hx _ IH]; [done|].
  cbn [mapM map]. rewrite Hx. cbn [mbind result_bind]. by rewrite IH.
Qed.

Lemma stack_map_Ok {A B} (f : B -> tensor A) (sh : list nat) (l : list B) :
  l <> [] -> (forall x, shape (f x) = sh) ->
  stack (map f l) = Ok (Tensor (length l :: sh) (concat (map (fun x => data (f x)) l))).
Proof.
  intros Hne Hsh. destruct l as [|b l]; [done|]. unfold stack.
  change (map f (b :: l)) with (f b :: map f l) at 1.
  cbv iota. rewrite (proj2 (forallb_forall _ _)).
  - by rewrite length_map, map_map, Hsh.
  - intros t (x & <- & _)%in_map_iff. apply bool_decide_eq_true_2. by rewrite !Hsh.
Qed.

Section LoaderFacts.
Context `{Sc : Scalar}.

Lemma fetch_Ok (g : nat -> scalar) (N : nat) (ds : MyDataset) (idxs : list nat) :
  MyDataset_init g N = Ok ds ->
  idxs <> [] -> Forall (fun i => i < N) idxs ->
  fetch ds idxs = Ok (collated ds idxs).
Proof.
  intros Hinit Hne Hall. unfold fetch.
  set (D := data (samples ds)).
  set (item := fun i : nat =>
         (Tensor [256] (chunk 256 i D), Tensor [] [derive_label (chunk 256 i D)])).
  rewrite (mapM_result_Ok _ item).
  2:{ eapply Forall_impl; [exact Hall|]. intros i Hi. cbv beta in Hi |- *.
      rewrite (MyDataset_getitem_spec g N ds _ Hinit). cbv zeta. unfold wrap_index.
      destruct (Z.ltb_spec (Z.of_nat i) 0); [lia|].
      destruct (Z.leb_spec 0 (Z.of_nat i)); [|lia].
      destruct (Z.ltb_spec (Z.of_nat i) (Z.of_nat N)); [|lia].
      cbn [andb]. by rewrite Nat2Z.id. }
  cbn [mbind result_bind].
  rewrite !map_map.
  rewrite (stack_map_Ok (fun i => (item i).1) [256]) by done.
  cbn [mbind result_bind].
  rewrite (stack_map_Ok (fun i => (item i).2) []) by done.
  cbn [mbind result_bind]. unfold collated.
  cbn [item fst snd data]. do 3 f_equal.
  clear. induction idxs as [|i idxs IH]; [done|]. cbn [map concat app]. by rewrite IH.
Qed.

Lemma DataLoader_iter_Ok (g : nat -> scalar) (N : nat) (ds : MyDataset)
    (B : nat) (sh dlast : bool) (w : nat) (dl : DataLoader) (draws : nat -> nat) :
  MyDataset_init g N = Ok ds ->
  DataLoader_init ds B sh dlast w = Ok dl ->
  let order := if sh then randperm draws N else seq 0 N in
  let groups := batch_sampler B dlast order [] in
  B <> 0 /\
  DataLoader_iter dl draws = Ok (map (collated ds) groups) /\
  map length groups = pass_sizes N B dlast.
Proof.
  intros Hinit Hdl order groups. unfold DataLoader_init in Hdl.
  destruct (Nat.eqb_spec B 0) as [|HB]; [discriminate|]. injection Hdl as <-.
  assert (Hperm : order ≡ₚ seq 0 N).
  { subst order. destruct sh; [apply randperm_perm|done]. }
  assert (Hsizes : map length groups = pass_sizes N B dlast).
  { subst groups. rewrite batch_sampler_sizes by (cbn [length]; lia).
    cbn [length]. by rewrite (Permutation_length Hperm), length_seq. }
  repeat split; [done| |done].
  unfold DataLoader_iter. cbn [dataset batch_size shuffle drop_last].
  pose proof Hinit as (_ & Hs & _)%MyDataset_init_Ok.
  unfold MyDataset_len, tensor_len. rewrite Hs. cbn [shape torch_rand mbind result_bind].
  fold order. fold groups. apply mapM_result_Ok.
  assert (Hlt : Forall (Forall (fun i => i < N)) groups).
  { apply batch_sampler_subset; [constructor|].
    rewrite Hperm. apply Forall_forall. intros i Hi%elem_of_seq. lia. }
  assert (Hpos : Forall (fun k => 0 < k) (map length groups)).
  { rewrite Hsizes. by apply pass_sizes_pos. }
  rewrite Forall_fmap in Hpos || apply Forall_map in Hpos.
  apply Forall_forall. intros idxs Hin.
  rewrite Forall_forall in Hlt, Hpos.
  specialize (Hpos idxs Hin). specialize (Hlt idxs Hin). cbn in Hpos.
  apply (fetch_Ok g N ds idxs Hinit); [|done].
  destruct idxs; [cbn in Hpos; lia|done].
Qed.

Lemma collated_sizes (ds : MyDataset) (groups : list (list nat)) :
  Forall2 (fun b k => batch_len b = Ok k) (map (collated ds) groups) (map length groups).
Proof. induction groups as [|idxs groups IH]; by constructor. Qed.

(** The loaders of the notebook: the training loader gives [N / 256]
    batches of 256 samples in a shuffled order, the test loader goes
    through all [N] items in their order. *)
Lemma train_loader_pass (g : nat -> scalar) (N : nat) (ds : MyDataset) (draws : nat -> nat) :
  MyDataset_init g N = Ok ds ->
  exists dl groups,
    train_loader ds = Ok dl /\
    DataLoader_iter dl draws = Ok (map (collated ds) groups) /\
    map length groups = replicate (N / 256) 256.
Proof.
  intros Hinit.
  destruct (DataLoader_iter_Ok g N ds 256 true true 2 _ draws Hinit eq_refl)
    as (_ & Hiter & Hsizes).
  eexists _, _. split; [reflexivity|]. split; [exact Hiter|].
  by rewrite Hsizes, pass_sizes_drop.
Qed.

Lemma test_loader_pass (g : nat -> scalar) (N : nat) (ds : MyDataset) (draws : nat -> nat) :
  MyDataset_init g N = Ok ds ->
  exists dl groups,
    test_loader ds = Ok dl /\
    DataLoader_iter dl draws = Ok (map (collated ds) groups) /\
    concat groups = seq 0 N.
Proof.
  intros Hinit.
  destruct (DataLoader_iter_Ok g N ds 256 false false 2 _ draws Hinit eq_refl)
    as (_ & Hiter & _).
  eexists _, _. split; [reflexivity|]. split; [exact Hiter|].
  cbv zeta. rewrite batch_sampler_concat. by rewrite app_nil_l.
Qed.

End LoaderFacts.

Lemma Forall2_replicate_Forall {A B} (R : A -> B -> Prop) (l : list A) (n : nat) (y : B) :
  Forall2 R l (replicate n y) -> Forall (fun x => R x y) l.
Proof.
  revert n. induction l as [|x l IH]; intros n Hl; [constructor|].
  destruct n as [|n]; inversion Hl; subst. constructor; [done|by eapply IH].
Qed.

(** C5. One pass of a loader over a data set of [N] items with batch
    size [B]: the batches have sizes [B, ..., B] ([N / B] times) followed
    by [N mod B] when that is not zero and the last batch is kept.  With
    drop-last there are exactly [N / B] batches of [B] items each;
    without it the full batches are followed by one batch of [N mod B]
    items only when the remainder is not zero, and the sizes add up
    to [N]. *)
Theorem C5_loader_pass_batch_sizes `{Sc : Scalar}
    (g : nat -> scalar) (N : nat) (ds : MyDataset)
    (B : nat) (sh dlast : bool) (w : nat) (dl : DataLoader) (draws : nat -> nat) :
  MyDataset_init g N = Ok ds ->
  DataLoader_init ds B sh dlast w = Ok dl ->
  exists batches : list batch,
    DataLoader_iter dl draws = Ok batches /\
    Forall2 (fun b k => batch_len b = Ok k) batches (pass_sizes N B dlast) /\
    (dlast = true ->
       length batches = N / B /\
       Forall (fun b => batch_len b = Ok B) batches) /\
    (dlast = false ->
       length batches = N / B + (if N mod B =? 0 then 0 else 1) /\
       Forall (fun b => batch_len b = Ok B) (take (N / B) batches) /\
       (N mod B <> 0 ->
          exists b, last batches = Some b /\ batch_len b = Ok (N mod B)) /\
       sum_list (pass_sizes N B false) = N).
Proof.
  intros Hinit Hdl.
  destruct (DataLoader_iter_Ok g N ds B sh dlast w dl draws Hinit Hdl)
    as (HB & Hiter & Hsizes).
  eexists. split; [exact Hiter|].
  set (batches := map _ _) in *.
  assert (HF : Forall2 (fun b k => batch_len b = Ok k) batches (pass_sizes N B dlast)).
  { rewrite <- Hsizes. apply collated_sizes. }
  split; [exact HF|]. split.
  - intros ->. rewrite pass_sizes_drop in HF. split.
    + by rewrite (Forall2_length _ _ _ HF), length_replicate.
    + exact (Forall2_replicate_Forall (fun b k => batch_len b = Ok k) _ _ _ HF).
  - intros ->. unfold pass_sizes in HF. cbn [orb] in HF.
    apply Forall2_app_inv_r in HF as (full & rest & Hfull & Hrest & Hb).
    pose proof (Forall2_length _ _ _ Hfull) as Hlen. rewrite length_replicate in Hlen.
    split; [|split; [|split]].
    + rewrite Hb, length_app, Hlen, (Forall2_length _ _ _ Hrest).
      by destruct (N mod B =? 0).
    + rewrite Hb, take_app_length' by done.
      exact (Forall2_replicate_Forall (fun b k => batch_len b = Ok k) _ _ _ Hfull).
    + intros Hrem. destruct (Nat.eqb_spec (N mod B) 0); [done|].
      inversion Hrest as [|b k rest' ks Hbk Hnil]; subst.
      inversion Hnil; subst. exists b. split; [|done].
      rewrite Hb. apply last_snoc.
    + by apply pass_sizes_sum.
Qed.

Lemma C5_witness :
  exists batches : list batch,
    DataLoader_iter demo_dataloader (fun i => i) = Ok batches /\
    Forall2 (fun b k => batch_len b = Ok k) batches [2].
Proof.
  destruct (C5_loader_pass_batch_sizes (Sc := Q_scalar)
              demo_rand 2 demo_dataset 3 true false 2 demo_dataloader (fun i => i)
              demo_dataset_built eq_refl)
    as (batches & Hiter & Hsizes & _).
  exists batches. split; [exact Hiter|exact Hsizes].
Defined.

(** ** The model *)

Section ModelFacts.
Context `{Sc : Scalar}.

Lemma linear_Ok (i o : nat) (W b : list scalar) (x : tensor scalar) (outer : list nat) :
  shape x = outer ++ [i] ->
  exists y, linear i o W b x = Ok y /\ shape y = outer ++ [o].
Proof.
  intros Hx. unfold linear. rewrite Hx, last_snoc, Nat.eqb_refl, removelast_last.
  by eexists.
Qed.

Lemma linear_Err (i o : nat) (W b : list scalar) (x : tensor scalar) :
  last (shape x) <> Some i -> linear i o W b x = Err RuntimeError.
Proof.
  intros Hx. unfold linear. destruct (last (shape x)) as [d|]; [|done].
  destruct (Nat.eqb_spec d i) as [->|]; done.
Qed.

(** The chain of modules computes the steps of the text. *)
Lemma MyModel_forward_steps (m : MyModel) (coin : nat -> bool) (x : tensor scalar) (pos : nat) :
  MyModel_forward m coin x pos = forward_steps m coin x pos.
Proof.
  unfold MyModel_forward, forward_steps, net.
  cbn [Sequential_forward layer_forward].
  destruct (linear (in_dim m) 128 _ _ _) as [hidden|e]; [|done].
  cbn [mbind result_bind fst snd].
  destruct (training m); cbn [mbind result_bind fst snd];
    by destruct (linear 128 (out_dim m) _ _ _).
Qed.

(** On a batch of [B] rows of [in_dim] entries the model returns [B] rows
    of [out_dim] scores. *)
Lemma MyModel_forward_Ok (m : MyModel) (coin : nat -> bool) (x : tensor scalar)
    (pos B : nat) :
  shape x = [B; in_dim m] ->
  exists y pos', MyModel_forward m coin x pos = Ok (y, pos') /\ shape y = [B; out_dim m].
Proof.
  intros Hx. rewrite MyModel_forward_steps. unfold forward_steps.
  destruct (linear_Ok (in_dim m) 128 (net_0_weight (params m)) (net_0_bias (params m))
              (tensor_map (fun v => s_sub v (s_lit (1 # 2))) x) [B])
    as (hidden & -> & Hh); [done|].
  cbn [mbind result_bind].
  set (dropped := if training m then dropout _ _ _ else _).
  assert (Hd : shape dropped = [B] ++ [128]) by (subst dropped; by destruct (training m)).
  destruct (linear_Ok 128 (out_dim m) (net_3_weight (params m)) (net_3_bias (params m))
              dropped [B] Hd) as (y & -> & Hy).
  cbn [mbind result_bind]. by eauto.
Qed.

End ModelFacts.

(** C6. The forward computation of the model is the composition:
    subtract 0.5 from every element, linear transform to 128 dimensions,
    rectified-linear activation, dropout with probability 0.2 in training
    mode only, linear transform to [out_dim] dimensions; the result of the
    last transform is returned as it is, no normalisation follows. *)
Theorem C6_forward_is_center_linear_relu_dropout_linear `{Sc : Scalar}
    (m : MyModel) (coin : nat -> bool) (x : tensor scalar) (pos : nat) :
  MyModel_forward m coin x pos =
    (let centered := tensor_map (fun v => s_sub v (s_lit (1 # 2))) x in
     hidden ← linear (in_dim m) 128 (net_0_weight (params m)) (net_0_bias (params m))
                centered;
     let active := tensor_map relu hidden in
     let n := length (data active) in
     let dropped := if training m
                    then dropout (2 # 10) (map coin (seq pos n)) active
                    else active in
     let pos' := if training m then pos + n else pos in
     scores ← linear 128 (out_dim m) (net_3_weight (params m)) (net_3_bias (params m))
                dropped;
     Ok (scores, pos'))
  /\ (fun r => last (shape r.1)) <$> MyModel_forward m coin x pos
     = (fun _ => Some (out_dim m)) <$> MyModel_forward m coin x pos.
Proof.
  split; [apply MyModel_forward_steps|].
  rewrite MyModel_forward_steps. unfold forward_steps.
  destruct (linear (in_dim m) 128 _ _ _) as [hidden|e]; [|done].
  cbn [mbind result_bind]. set (dropped := if training m then dropout _ _ _ else _).
  unfold linear at 1 2. destruct (last (shape dropped)) as [d|]; [|done].
  destruct (d =? 128); [|done].
  cbn [mbind result_bind fmap result_fmap fst shape]. by rewrite last_snoc.
Qed.

(** C7. In evaluation mode the output of the model is a function of the
    parameters and the input alone: two forward passes, whatever the
    state of the random source at each, give the same result, and neither
    consumes a random draw. *)
Theorem C7_eval_forward_deterministic `{Sc : Scalar}
    (m : MyModel) (x : tensor scalar) (coin coin' : nat -> bool) (pos pos' : nat) :
  fst <$> MyModel_forward (MyModel_eval m) coin x pos
  = fst <$> MyModel_forward (MyModel_eval m) coin' x pos'
  /\ snd <$> MyModel_forward (MyModel_eval m) coin x pos
     = (fun _ => pos) <$> MyModel_forward (MyModel_eval m) coin x pos.
Proof.
  rewrite !MyModel_forward_steps. unfold forward_steps, MyModel_eval.
  cbn [training in_dim out_dim params].
  destruct (linear (in_dim m) 128 _ _ _) as [hidden|e]; [|done].
  cbn [mbind result_bind].
  by destruct (linear 128 (out_dim m) _ _ _).
Qed.

(** ** The epoch loop *)

Section EpochFacts.
Context `{T : Torch}.

Lemma bind_Ok {A B} (c : M A) (f : A -> M B) (w w' : world) (a : A) :
  c w = (Ok a, w') -> (c ≫= f) w = f a w'.
Proof. intros Hc. unfold mbind, M_bind. by rewrite Hc. Qed.

Lemma bind_Err {A B} (c : M A) (f : A -> M B) (w w' : world) (e : exn) :
  c w = (Err e, w') -> (c ≫= f) w = (Err e, w').
Proof. intros Hc. unfold mbind, M_bind. by rewrite Hc. Qed.

Ltac run_M :=
  unfold call_model, cross_entropy, zero_grad, backward, step, log, modify, get, lift,
    raise, mbind, M_bind, mret, M_ret;
  cbn [w_model w_rng w_grad w_optim w_calls fst snd].

Lemma call_model_Ok (samples : tensor scalar) (w : world) (B : nat) :
  shape samples = [B; in_dim (w_model w)] ->
  exists out pos,
    shape out = [B; out_dim (w_model w)] /\
    call_model samples w =
      (Ok out, World (w_model w) (w_grad w) (w_optim w) pos (w_calls w ++ [CallForward])).
Proof.
  intros Hs.
  destruct (MyModel_forward_Ok (w_model w) coin samples (w_rng w) B Hs)
    as (out & pos & Hf & Hout).
  exists out, pos. split; [done|]. run_M. by rewrite Hf.
Qed.

Lemma cross_entropy_Ok (out : tensor scalar) (labels : tensor Z) (w : world) (B C : nat) :
  shape out = [B; C] -> shape labels = [B] ->
  Forall (fun l => (0 <= l < Z.of_nat C)%Z) (data labels) ->
  cross_entropy out labels w =
    (Ok (ce_loss out labels),
     World (w_model w) (w_grad w) (w_optim w) (w_rng w) (w_calls w ++ [CallCrossEntropy])).
Proof.
  intros Ho Hl Hv. run_M. rewrite Ho, Hl, Nat.eqb_refl.
  rewrite (proj2 (forallb_forall _ _)); [done|].
  intros l Hin. rewrite Forall_forall in Hv. apply list_elem_of_In, Hv in Hin.
  unfold valid_target. 
  destruct (Z.leb_spec 0 l); [|lia]. destruct (Z.ltb_spec l (Z.of_nat C)); [|lia].
  by rewrite orb_true_r.
Qed.

Lemma loop_body_Ok (optimizer : option optimizer) (mode : string) (b : batch)
    (w : world) (B : nat) :
  shape b.1 = [B; in_dim (w_model w)] ->
  shape b.2 = [B] ->
  Forall (fun l => (0 <= l < Z.of_nat (out_dim (w_model w)))%Z) (data b.2) ->
  (mode = "train" -> optimizer <> None) ->
  exists out w',
    loop_body optimizer mode b w = (Ok (out, ce_loss out b.2), w') /\
    shape out = [B; out_dim (w_model w)] /\
    in_dim (w_model w') = in_dim (w_model w) /\
    out_dim (w_model w') = out_dim (w_model w).
Proof.
  destruct b as [samples labels]. cbn [fst snd]. intros Hs Hl Hv Hopt.
  destruct (call_model_Ok samples w B Hs) as (out & pos & Hout & Hcall).
  exists out. unfold loop_body.
  rewrite (bind_Ok get _ w w w eq_refl).
  rewrite (bind_Ok _ _ _ _ _ Hcall).
  erewrite (bind_Ok (cross_entropy out labels)); [|by eapply cross_entropy_Ok].
  cbn [w_model w_rng w_grad w_optim w_calls].
  destruct (String.eqb_spec mode "train") as [->|Hmode].
  - destruct optimizer as [o|]; [|by destruct Hopt].
    eexists. split; [run_M; reflexivity|]. done.
  - eexists. split; [run_M; reflexivity|]. done.
Qed.

(** *** The accuracy lines *)

Lemma count_zip_map {A} (f : A -> Z) (l : list A) (k : list Z) :
  length (List.filter (fun pl => (pl.1 =? pl.2)%Z) (zip (map f l) k))
  = length (List.filter (fun rl => (f rl.1 =? rl.2)%Z) (zip l k)).
Proof.
  revert k. induction l as [|x l IH]; intros [|y k]; [done..|].
  cbn [map zip zip_with List.filter fst snd]. destruct (f x =? y)%Z; cbn [length]; by rewrite IH.
Qed.

Lemma correct_count_le (out : tensor scalar) (labels : tensor Z) (B C : nat) :
  shape out = [B; C] -> correct_count out labels <= B.
Proof.
  intros Ho. unfold correct_count, rows. rewrite Ho.
  etransitivity; [apply List.filter_length_le|].
  rewrite length_zip_with, length_map, length_seq. lia.
Qed.

Lemma accuracy_lines (out : tensor scalar) (labels : tensor Z) (B C : nat) :
  shape out = [B; C] -> shape labels = [B] -> C <> 0 ->
  exists pred,
    tensor_argmax1 out = Ok pred /\
    tensor_eq_count pred labels = Ok (correct_count out labels).
Proof.
  intros Ho Hl HC. unfold tensor_argmax1. rewrite Ho.
  destruct (Nat.eqb_spec C 0) as [|_]; [done|].
  eexists. split; [reflexivity|].
  unfold tensor_eq_count. cbn [shape data]. rewrite Hl, bool_decide_eq_true_2 by done.
  f_equal. unfold correct_count, rows. rewrite Ho.
  rewrite <- (count_zip_map (fun r => Z.of_nat (argmax r))). by rewrite map_map.
Qed.

Lemma batch_ok_dims (m m' : MyModel) (b : batch) :
  in_dim m' = in_dim m -> out_dim m' = out_dim m -> batch_ok m b -> batch_ok m' b.
Proof. intros Hi Ho (B & ?). exists B. by rewrite Hi, Ho. Qed.

Lemma final_loss_cons (l0 : option scalar) r (rs : list (batch * tensor scalar * scalar)) :
  final_loss l0 (r :: rs) = final_loss (Some r.2) rs.
Proof. unfold final_loss. rewrite last_cons. by destruct (last rs). Qed.

(** The loop over accepted batches runs to the end; it leaves in the
    counters the totals over the batches and in the loss variable the loss
    of the last one. *)
Lemma epoch_loop_run (optimizer : option optimizer) (mode : string) (loader : list batch) :
  (mode = "train" -> optimizer <> None) ->
  forall (w : world) (ns nc : nat) (l0 : option scalar),
  Forall (batch_ok (w_model w)) loader ->
  exists rs w',
    epoch_outputs optimizer mode loader w = (Ok rs, w') /\
    map (fun r => r.1.1) rs = loader /\
    Forall (fun r => r.2 = ce_loss r.1.2 r.1.1.2) rs /\
    total_correct rs <= total_samples rs /\
    length loader <= total_samples rs /\
    epoch_loop optimizer mode loader ns nc l0 w
    = epoch_loop optimizer mode [] (ns + total_samples rs) (nc + total_correct rs)
        (final_loss l0 rs) w'.
Proof.
  intros Hopt. induction loader as [|b rest IH]; intros w ns nc l0 Hok.
  - exists [], w. unfold total_samples, total_correct, final_loss. cbn [map sum_list_with last].
    rewrite !Nat.add_0_r. repeat split; by try constructor.
  - apply Forall_cons in Hok as [Hb Hrest].
    destruct Hb as (B & HB & Hs & Hl & Hlen & Hv).
    destruct (loop_body_Ok optimizer mode b w B Hs Hl Hv Hopt)
      as (out & w1 & Hbody & Hout & Hin & Hod).
    destruct (IH w1 (ns + B) (nc + correct_count out b.2) (Some (ce_loss out b.2)))
      as (rs & w' & Houts & Hmap & Hloss & Hle & Hn & Hloop).
    { eapply Forall_impl; [exact Hrest|]. intros b'. by apply batch_ok_dims. }
    assert (HC : out_dim (w_model w) <> 0).
    { destruct (data b.2) as [|l ls]; [cbn in Hlen; lia|].
      apply Forall_cons in Hv as [Hl0 _]. lia. }
    destruct (accuracy_lines out b.2 B (out_dim (w_model w)) Hout Hl HC)
      as (pred & Hpred & Hcount).
    exists ((b, out, ce_loss out b.2) :: rs), w'.
    assert (Hts : total_samples ((b, out, ce_loss out b.2) :: rs) = B + total_samples rs).
    { unfold total_samples, batch_count. cbn [map sum_list_with fst]. by rewrite Hs. }
    assert (Htc : total_correct ((b, out, ce_loss out b.2) :: rs)
                  = correct_count out b.2 + total_correct rs) by done.
    pose proof (correct_count_le out b.2 B _ Hout) as Hc.
    split; [|split; [|split; [|split; [|split]]]].
    + cbn [epoch_outputs]. rewrite (bind_Ok _ _ _ _ _ Hbody).
      by rewrite (bind_Ok _ _ _ _ _ Houts).
    + cbn [map fst]. by rewrite Hmap.
    + by constructor.
    + lia.
    + cbn [length]. lia.
    + cbn [epoch_loop]. rewrite (bind_Ok _ _ _ _ _ Hbody). cbn [fst snd].
      unfold tensor_len. rewrite Hs, Hpred.
      rewrite (bind_Ok (lift (Ok B)) _ w1 w1 B eq_refl).
      rewrite (bind_Ok (lift (Ok pred)) _ w1 w1 pred eq_refl).
      rewrite Hcount.
      rewrite (bind_Ok (lift (Ok (correct_count out b.2))) _ w1 w1 _ eq_refl).
      rewrite Hloop, Hts, Htc, final_loss_cons. cbn [snd].
      by rewrite !Nat.add_assoc.
Qed.

(** *** Computations that leave the training state alone *)

Lemma untrained_refl (w : world) : untrained w w.
Proof. repeat split. exists []. by rewrite app_nil_r. Qed.

Lemma untrained_trans (w1 w2 w3 : world) :
  untrained w1 w2 -> untrained w2 w3 -> untrained w1 w3.
Proof.
  intros (Hm & Hg & Ho & new & Hc & Hn) (Hm' & Hg' & Ho' & new' & Hc' & Hn').
  repeat split; [congruence..|].
  exists (new ++ new'). split.
  - by rewrite Hc', Hc, app_assoc.
  - by apply Forall_app.
Qed.

Lemma preserves_ret {A} (a : A) : preserves (mret a).
Proof. intros w. apply untrained_refl. Qed.

Lemma preserves_lift {A} (r : result A) : preserves (lift r).
Proof. intros w. apply untrained_refl. Qed.

Lemma preserves_raise {A} (e : exn) : preserves (raise (A := A) e).
Proof. intros w. apply untrained_refl. Qed.

Lemma preserves_get : preserves get.
Proof. intros w. apply untrained_refl. Qed.

Lemma preserves_bind {A B} (c : M A) (f : A -> M B) :
  preserves c -> (forall a, preserves (f a)) -> preserves (c ≫= f).
Proof.
  intros Hc Hf w. specialize (Hc w). unfold mbind, M_bind.
  destruct (c w) as [[a|e] w1]; cbn [snd] in *; [|done].
  eapply untrained_trans; [exact Hc|apply Hf].
Qed.

Lemma preserves_log (c : call) : training_call c = false -> preserves (log c).
Proof.
  intros Hc w. unfold log, modify. cbn. repeat split.
  exists [c]. split; [done|]. by constructor.
Qed.

Lemma preserves_call_model (samples : tensor scalar) : preserves (call_model samples).
Proof.
  unfold call_model.
  apply preserves_bind; [by apply preserves_log|intros _].
  apply preserves_bind; [apply preserves_get|intros w0].
  apply preserves_bind; [apply preserves_lift|intros r].
  apply preserves_bind; [|intros _; apply preserves_ret].
  intros w. unfold modify. cbn. repeat split. exists []. by rewrite app_nil_r.
Qed.

Lemma preserves_cross_entropy (out : tensor scalar) (labels : tensor Z) :
  preserves (cross_entropy out labels).
Proof.
  unfold cross_entropy.
  apply preserves_bind; [by apply preserves_log|intros _]. apply preserves_lift.
Qed.

Lemma preserves_loop_body (optimizer : option optimizer) (mode : string) (b : batch) :
  mode <> "train" -> preserves (loop_body optimizer mode b).
Proof.
  intros Hmode%String.eqb_neq. unfold loop_body. destruct b as [samples labels].
  rewrite Hmode.
  apply preserves_bind; [apply preserves_get|intros w0].
  apply preserves_bind; [apply preserves_call_model|intros out].
  apply preserves_bind; [apply preserves_cross_entropy|intros loss].
  apply preserves_bind; [apply preserves_ret|intros _]. apply preserves_ret.
Qed.

Lemma preserves_epoch_loop (optimizer : option optimizer) (mode : string)
    (loader : list batch) (ns nc : nat) (l0 : option scalar) :
  mode <> "train" -> preserves (epoch_loop optimizer mode loader ns nc l0).
Proof.
  intros Hmode. revert ns nc l0.
  induction loader as [|b rest IH]; intros ns nc l0; cbn [epoch_loop].
  - apply preserves_bind; [apply preserves_lift|intros acc].
    apply preserves_bind; [apply preserves_lift|intros l]. apply preserves_ret.
  - apply preserves_bind; [by apply preserves_loop_body|intros r].
    apply preserves_bind; [apply preserves_lift|intros n].
    apply preserves_bind; [apply preserves_lift|intros pred].
    apply preserves_bind; [apply preserves_lift|intros c]. apply IH.
Qed.

(** In train mode without an optimiser the body of the loop raises. *)
Lemma loop_body_no_optimizer (b : batch) (w : world) :
  exists e w', loop_body None "train" b w = (Err e, w').
Proof.
  destruct b as [samples labels]. unfold loop_body.
  rewrite (bind_Ok get _ w w w eq_refl).
  destruct (call_model samples w) as [[out|e] w1] eqn:Hcall.
  2:{ rewrite (bind_Err _ _ _ _ _ Hcall). by eauto. }
  rewrite (bind_Ok _ _ _ _ _ Hcall).
  destruct (cross_entropy out labels w1) as [[loss|e] w2] eqn:Hce.
  2:{ rewrite (bind_Err _ _ _ _ _ Hce). by eauto. }
  rewrite (bind_Ok _ _ _ _ _ Hce). cbn [String.eqb Ascii.eqb Bool.eqb].
  by eauto.
Qed.

Lemma accuracy_in_unit_interval (c n : nat) :
  c <= n -> 0 < n -> (0 <= Z.of_nat c # Pos.of_nat n <= 1)%Q.
Proof.
  intros Hc Hn. unfold Qle. cbn [Qnum Qden].
  assert (Hp : Z.pos (Pos.of_nat n) = Z.of_nat n).
  { rewrite <- positive_nat_Z, Nat2Pos.id by lia. done. }
  rewrite Hp. lia.
Qed.

End EpochFacts.

(** C2, as amended.  On a non-empty sequence of non-empty batches that
    the model and the loss accept, in any mode, with an optimiser supplied
    whenever the mode is 'train', the epoch runner returns a pair: its
    first component is the number of samples whose predicted label (the
    argmax of the row of scores the model gave) is the true label, summed
    over all batches, divided by the number of samples of all batches, a
    value in [0,1]; its second component is the cross-entropy loss of the
    last batch, not an average. *)
Theorem C2_epoch_accuracy_and_last_batch_loss `{T : Torch}
    (w : world) (loader : list batch) (optimizer : option optimizer) (mode : string) :
  loader <> [] ->
  Forall (batch_ok (w_model w)) loader ->
  (mode = "train" -> optimizer <> None) ->
  exists (rs : list (batch * tensor scalar * scalar))
         (r_last : batch * tensor scalar * scalar) (w' : world),
    epoch_outputs optimizer mode loader w = (Ok rs, w') /\
    map (fun r => r.1.1) rs = loader /\
    Forall (fun r => r.2 = ce_loss r.1.2 r.1.1.2) rs /\
    last rs = Some r_last /\
    last loader = Some r_last.1.1 /\
    r_last.2 = ce_loss r_last.1.2 r_last.1.1.2 /\
    single_epoch_loop loader optimizer mode w
    = (Ok ((Z.of_nat (total_correct rs) # Pos.of_nat (total_samples rs))%Q, r_last.2), w') /\
    total_correct rs <= total_samples rs /\
    0 < total_samples rs /\
    (0 <= Z.of_nat (total_correct rs) # Pos.of_nat (total_samples rs) <= 1)%Q.
Proof.
  intros Hne Hok Hopt.
  destruct (epoch_loop_run optimizer mode loader Hopt w 0 0 None Hok)
    as (rs & w' & Houts & Hmap & Hloss & Hle & Hn & Hloop).
  assert (Hpos : 0 < total_samples rs) by (destruct loader; [done|cbn in Hn; lia]).
  destruct (last rs) as [r_last|] eqn:Hlast.
  2:{ apply last_None in Hlast. subst rs. by destruct loader. }
  exists rs, r_last, w'. repeat split; try done.
  - rewrite <- Hmap. change (map ?f rs) with (f <$> rs). by rewrite fmap_last, Hlast.
  - rewrite Forall_forall in Hloss. apply Hloss. by apply last_Some_elem_of.
  - unfold single_epoch_loop. rewrite Hloop. cbn [epoch_loop Nat.add].
    unfold final_loss. rewrite Hlast. unfold truediv.
    destruct (Nat.eqb_spec (total_samples rs) 0); [lia|]. done.
  - by apply accuracy_in_unit_interval.
  - by apply accuracy_in_unit_interval.
Qed.

Lemma demo_loader_ok : Forall (batch_ok demo_model) demo_loader.
Proof.
  repeat apply Forall_cons_2; [| |apply Forall_nil_2].
  - exists 2. repeat split; [lia|]. repeat constructor; cbn; lia.
  - exists 1. repeat split; [lia|]. repeat constructor; cbn; lia.
Qed.

Lemma C2_witness :
  exists rs r_last w',
    epoch_outputs (Some Optimizer) "train" demo_loader demo_world = (Ok rs, w') /\
    map (fun r => r.1.1) rs = demo_loader /\
    Forall (fun r => r.2 = ce_loss r.1.2 r.1.1.2) rs /\
    last rs = Some r_last /\
    last demo_loader = Some r_last.1.1 /\
    r_last.2 = ce_loss r_last.1.2 r_last.1.1.2 /\
    single_epoch_loop demo_loader (Some Optimizer) "train" demo_world
    = (Ok ((Z.of_nat (total_correct rs) # Pos.of_nat (total_samples rs))%Q, r_last.2), w') /\
    total_correct rs <= total_samples rs /\
    0 < total_samples rs /\
    (0 <= Z.of_nat (total_correct rs) # Pos.of_nat (total_samples rs) <= 1)%Q.
Proof.
  apply (C2_epoch_accuracy_and_last_batch_loss (T := demo_torch)
           demo_world demo_loader (Some Optimizer) "train").
  - discriminate.
  - exact demo_loader_ok.
  - discriminate.
Defined.

(** C2 as stated fails.  Called on a non-empty batch sequence with the
    default arguments (mode 'train', no optimiser) the epoch runner raises
    instead of returning a pair; on a non-empty sequence whose only batch
    has no sample it has nothing to divide by; and a batch that the model
    or the loss rejects (three entries per sample for a model of two
    inputs, a label that is no class index) makes it raise as well. *)
Lemma C2_counterexample :
  demo_loader <> [] /\
  (single_epoch_loop_default demo_loader demo_world).1 = Err AttributeError /\
  is_Err (single_epoch_loop [(Tensor [0; 2] [], Tensor [0] [])] None "test"
            demo_world).1 /\
  is_Err (single_epoch_loop [(Tensor [1; 3] [0; 0; 0]%Q, Tensor [1] [0%Z])] None "test"
            demo_world).1 /\
  is_Err (single_epoch_loop [(Tensor [1; 2] [0; 0]%Q, Tensor [1] [3%Z])] None "test"
            demo_world).1.
Proof.
  split; [discriminate|]. split; [vm_compute; reflexivity|].
  repeat split; eexists; vm_compute; reflexivity.
Qed.

(** C8. In mode 'train' on a non-empty batch sequence without an
    optimiser the epoch runner fails. *)
Theorem C8_train_without_optimizer_fails `{T : Torch}
    (w : world) (loader : list batch) :
  loader <> [] ->
  exists e w', single_epoch_loop loader None "train" w = (Err e, w').
Proof.
  intros Hne. destruct loader as [|b rest]; [done|].
  destruct (loop_body_no_optimizer b w) as (e & w' & Hbody).
  exists e, w'. unfold single_epoch_loop. cbn [epoch_loop].
  by rewrite (bind_Err _ _ _ _ _ Hbody).
Qed.

Lemma C8_witness :
  exists e w', single_epoch_loop demo_loader None "train" demo_world = (Err e, w').
Proof.
  apply (C8_train_without_optimizer_fails (T := demo_torch) demo_world demo_loader).
  discriminate.
Defined.

(** C9. On an empty batch sequence the epoch runner returns nothing: it
    raises the division-by-zero error of [n_correct / n_samples], whatever
    the mode and the optimiser, and leaves the world as it was. *)
Theorem C9_empty_loader_divides_by_zero `{T : Torch}
    (w : world) (optimizer : option optimizer) (mode : string) :
  single_epoch_loop [] optimizer mode w = (Err ZeroDivisionError, w).
Proof. reflexivity. Qed.

(** C10. When the mode is not exactly 'train', the epoch runner makes no
    gradient-clearing, backward or optimiser-step call, and the model
    with its parameters, the gradient buffers and the optimiser state are
    after the call what they were before, whether the call returns or
    raises. *)
Theorem C10_other_modes_leave_training_state `{T : Torch}
    (w : world) (loader : list batch) (optimizer : option optimizer) (mode : string) :
  mode <> "train" ->
  let w' := (single_epoch_loop loader optimizer mode w).2 in
  params (w_model w') = params (w_model w) /\
  w_model w' = w_model w /\
  w_grad w' = w_grad w /\
  w_optim w' = w_optim w /\
  exists new,
    w_calls w' = w_calls w ++ new /\
    Forall (fun c => c <> CallZeroGrad /\ c <> CallBackward /\ c <> CallStep) new.
Proof.
  intros Hmode w'. subst w'.
  destruct (preserves_epoch_loop optimizer mode loader 0 0 None Hmode w)
    as (Hm & Hg & Ho & new & Hc & Hn).
  fold (single_epoch_loop loader optimizer mode) in *.
  repeat split; [by rewrite Hm|done..|].
  exists new. split; [done|].
  eapply Forall_impl; [exact Hn|]. by intros [].
Qed.

Lemma C10_witness :
  let w' := (single_epoch_loop demo_loader (Some Optimizer) "Train" demo_world).2 in
  params (w_model w') = params (w_model demo_world) /\
  w_model w' = w_model demo_world /\
  w_grad w' = w_grad demo_world /\
  w_optim w' = w_optim demo_world /\
  exists new,
    w_calls w' = w_calls demo_world ++ new /\
    Forall (fun c => c <> CallZeroGrad /\ c <> CallBackward /\ c <> CallStep) new.
Proof.
  apply (C10_other_modes_leave_training_state (T := demo_torch)
           demo_world demo_loader (Some Optimizer) "Train").
  discriminate.
Defined.

(** ** Checkpoints *)

Section CheckpointFacts.
Context `{P : Pickle}.

Lemma state_dict_dom (m : MyModel) :
  dom (state_dict m)
  = ({["net.0.weight"; "net.0.bias"; "net.3.weight"; "net.3.bias"]} : gset string).
Proof. unfold state_dict. rewrite !dom_insert_L, dom_singleton_L. set_solver. Qed.

Lemma state_dict_lookups (m : MyModel) :
  state_dict m !! "net.0.weight" = Some (Tensor [128; in_dim m] (net_0_weight (params m))) /\
  state_dict m !! "net.0.bias" = Some (Tensor [128] (net_0_bias (params m))) /\
  state_dict m !! "net.3.weight" = Some (Tensor [out_dim m; 128] (net_3_weight (params m))) /\
  state_dict m !! "net.3.bias" = Some (Tensor [out_dim m] (net_3_bias (params m))).
Proof.
  unfold state_dict. split; [|split; [|split]].
  - apply lookup_insert_eq.
  - rewrite lookup_insert_ne by done. apply lookup_insert_eq.
  - rewrite !lookup_insert_ne by done. apply lookup_insert_eq.
  - rewrite !lookup_insert_ne by done. apply lookup_singleton_eq.
Qed.

Lemma load_state_dict_state_dict (m0 m : MyModel) :
  in_dim m0 = in_dim m -> out_dim m0 = out_dim m ->
  load_state_dict m0 (state_dict m) = (Ok tt, with_params m0 (params m)).
Proof.
  intros Hi Ho. unfold load_state_dict, load_param.
  destruct (state_dict_lookups m) as (-> & -> & -> & ->).
  rewrite !state_dict_dom, Hi, Ho. cbn [shape data].
  rewrite !bool_decide_eq_true_2 by done.
  cbn [fst snd andb]. by destruct (params m).
Qed.

Lemma checkpoint_record_lookups (epoch : Z) (m : MyModel) (o : opt_state) (best_acc : Q) :
  let c := checkpoint_record epoch m o best_acc in
  dict_get c "epoch" = Ok (VInt epoch) /\
  dict_get c "model_state_dict" = Ok (VModelState (state_dict m)) /\
  dict_get c "optimizer_state_dict" = Ok (VOptimState o) /\
  dict_get c "best_acc" = Ok (VFloat best_acc).
Proof.
  unfold dict_get, checkpoint_record. cbv zeta. split; [|split; [|split]].
  - by rewrite lookup_insert_eq.
  - rewrite lookup_insert_ne by done. by rewrite lookup_insert_eq.
  - rewrite !lookup_insert_ne by done. by rewrite lookup_insert_eq.
  - rewrite !lookup_insert_ne by done. by rewrite lookup_singleton_eq.
Qed.

Lemma load_save `{!PickleLossless}
    (path : string) (epoch : Z) (m : MyModel) (o : opt_state) (best_acc : Q)
    (fs : gmap string blob) (w : world) :
  in_dim (w_model w) = in_dim m ->
  out_dim (w_model w) = out_dim m ->
  load path (save path epoch m o best_acc fs) w
  = (Ok (VInt epoch, VFloat best_acc),
     World (with_params (w_model w) (params m)) (w_grad w) o (w_rng w) (w_calls w)).
Proof.
  intros Hi Ho.
  destruct (checkpoint_record_lookups epoch m o best_acc) as (He & Hm & Hopt & Hb).
  unfold load, save, torch_save, torch_load.
  rewrite lookup_insert_eq, unpickle_pickle.
  rewrite (bind_Ok (lift (Ok _)) _ w w _ eq_refl).
  rewrite Hm, (bind_Ok (lift (Ok _)) _ w w _ eq_refl).
  unfold model_load_state_dict at 1.
  erewrite bind_Ok; [|by rewrite (load_state_dict_state_dict _ _ Hi Ho)].
  rewrite Hopt. 
  unfold optimizer_load_state_dict, modify, lift, mbind, M_bind, mret, M_ret.
  cbn [w_model w_grad w_optim w_rng w_calls]. by rewrite He, Hb.
Qed.

(** Loading fails when nothing was saved under the path. *)
Lemma load_missing_file (path : string) (fs : gmap string blob) (w : world) :
  fs !! path = None -> load path fs w = (Err FileNotFoundError, w).
Proof.
  intros Hfs. unfold load, torch_load. rewrite Hfs.
  by rewrite (bind_Err (lift (Err FileNotFoundError)) _ w w _ eq_refl).
Qed.

(** The two cells of the notebook, run one after the other. *)
Lemma notebook_save_load_cells `{!PickleLossless}
    (epoch : Z) (test_acc : Q) (w : world) (fs : gmap string blob) :
  load_cell (save_cell epoch test_acc w fs) w
  = (Ok (VInt (epoch + 1), VFloat test_acc), w).
Proof.
  unfold load_cell, save_cell. rewrite load_save by done.
  destruct w as [[i o [w0 b0 w3 b3] tr] g os r c]. reflexivity.
Qed.

End CheckpointFacts.

#[export] Instance demo_pickle_lossless : @PickleLossless Q_scalar demo_torch demo_pickle.
Proof. by split. Qed.

(** C3. Loading the checkpoint that [save] wrote under a path returns the
    epoch and the best accuracy that were saved, and leaves the model with
    the saved parameters and the optimiser with the saved state, value for
    value (the serialiser of the framework being lossless). *)
Theorem C3_checkpoint_round_trip `{P : Pickle} `{!PickleLossless}
    (path : string) (epoch : Z) (m : MyModel) (o : opt_state) (best_acc : Q)
    (fs : gmap string blob) (w : world) :
  in_dim (w_model w) = in_dim m ->
  out_dim (w_model w) = out_dim m ->
  exists w',
    load path (save path epoch m o best_acc fs) w
    = (Ok (VInt epoch, VFloat best_acc), w') /\
    params (w_model w') = params m /\
    state_dict (w_model w') = state_dict m /\
    w_optim w' = o.
Proof.
  intros Hi Ho. eexists. split; [by apply load_save|].
  cbn [w_model w_optim]. repeat split.
  unfold state_dict, with_params. cbn [in_dim out_dim params]. by rewrite Hi, Ho.
Qed.

Lemma C3_witness :
  exists w',
    load "ckpt.pt" (save "ckpt.pt" 5 demo_model 7 (97 # 100) ∅ ) demo_world
    = (Ok (VInt 5, VFloat (97 # 100)), w') /\
    params (w_model w') = params demo_model /\
    state_dict (w_model w') = state_dict demo_model /\
    w_optim w' = 7.
Proof.
  apply (C3_checkpoint_round_trip (P := demo_pickle)
           "ckpt.pt" 5%Z demo_model 7 (97 # 100)%Q ∅ demo_world);
    reflexivity.
Defined.

(** ** The definitions at work *)

(** The sizes of the notebook: 40000 training items in dropped-last
    batches of 256, 10000 test items with the last batch kept. *)
Example notebook_train_pass :
  pass_sizes (40 * 1000) 256 true = replicate 156 256.
Proof. vm_compute. reflexivity. Qed.

Example notebook_test_pass :
  pass_sizes (10 * 1000) 256 false = replicate 39 256 ++ [16].
Proof. vm_compute. reflexivity. Qed.

Example batch_sampler_keeps_rest :
  batch_sampler 3 false [4; 0; 6; 1; 5; 2; 3] [] = [[4; 0; 6]; [1; 5; 2]; [3]].
Proof. reflexivity. Qed.

Example batch_sampler_drops_rest :
  batch_sampler 3 true [4; 0; 6; 1; 5; 2; 3] [] = [[4; 0; 6]; [1; 5; 2]].
Proof. reflexivity. Qed.

Example randperm_example : randperm (fun i => i * 7 + 3) 6 = [3; 4; 5; 1; 0; 2].
Proof. reflexivity. Qed.

(** Both labels of the demonstration data set are 1, and the index [-2]
    gives the first item. *)
Example demo_labels : labels demo_dataset = Tensor [2] [1; 1]%Z.
Proof. vm_compute. reflexivity. Qed.

Example demo_first_item_from_the_end : demo_item (-2) = demo_item 0.
Proof. vm_compute. reflexivity. Qed.

(** One epoch over the demonstration loader.  In mode 'test' one of the
    three samples is classified correctly and nothing is updated; in mode
    'train' with the optimiser every batch clears, accumulates and
    steps. *)
Example demo_test_epoch :
  fst <$> (single_epoch_loop demo_loader None "test" demo_world).1 = Ok (1 # 3)%Q.
Proof. vm_compute. reflexivity. Qed.

Example demo_train_epoch_calls :
  w_calls (single_epoch_loop demo_loader (Some Optimizer) "train" demo_world).2
  = [CallForward; CallCrossEntropy; CallZeroGrad; CallBackward; CallStep;
     CallForward; CallCrossEntropy; CallZeroGrad; CallBackward; CallStep].
Proof. vm_compute. reflexivity. Qed.

(** In training mode the output does depend on the random stream. *)
Example train_forward_depends_on_coin :
  fst <$> MyModel_forward demo_model (fun _ => true) (Tensor [1; 2] [1 # 4; 3 # 4]%Q) 0
  <> fst <$> MyModel_forward demo_model (fun _ => false) (Tensor [1; 2] [1 # 4; 3 # 4]%Q) 0.
Proof. vm_compute. discriminate. Qed.

(** * Further properties of the notebook *)

(** ** Chunks of concatenations *)

Lemma chunk_concat_map {A B} (f : B -> list A) (c : nat) (l : list B) (k : nat) (x : B) :
  Forall (fun y => length (f y) = c) l ->
  l !! k = Some x ->
  chunk c k (concat (map f l)) = f x.
Proof.
  intros Hall. revert k. induction Hall as [|y l Hy _ IH]; intros k Hk; [done|].
  cbn [map concat]. destruct k as [|k].
  - injection Hk as ->. unfold chunk. cbn [Nat.mul drop]. by apply take_app_length'.
  - unfold chunk. replace (S k * c) with (length (f y) + k * c) by lia.
    rewrite drop_app_add. by apply IH.
Qed.

Lemma concat_chunks {A} (c n : nat) (l : list A) :
  length l = n * c -> concat (map (fun i => chunk c i l) (seq 0 n)) = l.
Proof.
  revert l. induction n as [|n IH]; intros l Hl.
  - by destruct l.
  - rewrite seq_S, map_app, concat_app. cbn [map concat Nat.add]. rewrite app_nil_r.
    transitivity (take (n * c) l ++ drop (n * c) l); [|apply take_drop]. f_equal.
    + rewrite <- (IH (take (n * c) l)) by (rewrite length_take; lia).
      f_equal. apply map_ext_in. intros i Hi%in_seq. unfold chunk.
      replace (n * c) with (i * c + (n * c - i * c)) by nia.
      rewrite <- take_drop_commute, take_take. f_equal.
      symmetry. apply Nat.min_l. nia.
    + unfold chunk. apply take_ge. rewrite length_drop. lia.
Qed.

Lemma concat_map_concat {A B} (f : B -> list A) (ls : list (list B)) :
  concat (map (fun l => concat (map f l)) ls) = concat (map f (concat ls)).
Proof.
  induction ls as [|l ls IH]; [done|].
  cbn [map concat]. by rewrite map_app, concat_app, IH.
Qed.

Lemma concat_map_singleton {A B} (f : B -> A) (l : list B) :
  concat (map (fun x => [f x]) l) = map f l.
Proof. induction l as [|x l IH]; [done|]. cbn. by rewrite IH. Qed.

(** What the batch sampler emits is a prefix of the indices it was given,
    in their order. *)
Lemma batch_sampler_prefix (bs : nat) (dl : bool) (idxs cur : list nat) :
  concat (batch_sampler bs dl idxs cur) `prefix_of` cur ++ idxs.
Proof.
  revert cur. induction idxs as [|i idxs IH]; intros cur; cbn [batch_sampler].
  - rewrite app_nil_r. destruct ((0 <? length cur) && negb dl)%bool.
    + cbn [concat]. by rewrite app_nil_r.
    + apply prefix_nil.
  - replace (cur ++ i :: idxs) with ((cur ++ [i]) ++ idxs) by by rewrite <- app_assoc.
    destruct (length (cur ++ [i]) =? bs).
    + cbn [concat]. apply prefix_app. apply (IH []).
    + apply IH.
Qed.

Lemma argmax_from_lt `{Sc : Scalar} (l : list scalar) (best : scalar) (bi i : nat) :
  bi < i -> argmax_from best bi i l < i + length l.
Proof.
  revert best bi i. induction l as [|x l IH]; intros best bi i Hbi; cbn [argmax_from length].
  - lia.
  - destruct (s_ltb best x).
    + specialize (IH x i (S i)). lia.
    + specialize (IH best bi (S i)). lia.
Qed.

Lemma argmax_lt `{Sc : Scalar} (l : list scalar) : l <> [] -> argmax l < length l.
Proof.
  destruct l as [|x l]; [done|]. intros _. cbn [argmax length].
  pose proof (argmax_from_lt l x 0 1). lia.
Qed.

Lemma derive_label_range `{Sc : Scalar} (v : list scalar) : (0 <= derive_label v < 4)%Z.
Proof.
  unfold derive_label.
  assert (Hlen : length (patch_means v) = 4) by reflexivity.
  pose proof (argmax_lt (patch_means v)) as Hlt.
  destruct (patch_means v); [done|]. specialize (Hlt ltac:(done)). lia.
Qed.

(** ** The data set and the loaders *)

Section DataExtras.
Context `{Sc : Scalar}.

Lemma samples_length (g : nat -> scalar) (N : nat) (ds : MyDataset) :
  MyDataset_init g N = Ok ds -> length (data (samples ds)) = N * 256.
Proof.
  intros (_ & Hs & _)%MyDataset_init_Ok. rewrite Hs. cbn [data torch_rand].
  by rewrite length_map, length_seq, numel2.
Qed.

Lemma item_at_spec (g : nat -> scalar) (N : nat) (ds : MyDataset) (k : nat) :
  MyDataset_init g N = Ok ds -> k < N ->
  item_at ds k =
    (Tensor [256] (chunk 256 k (data (samples ds))),
     Tensor [] [derive_label (chunk 256 k (data (samples ds)))]).
Proof.
  intros (_ & _ & Hl)%MyDataset_init_Ok Hk. unfold item_at. rewrite Hl at 1. cbn [data].
  rewrite chunk_map, chunk_seq by lia. cbn [seq map].
  by replace (0 + k * 1) with k by lia.
Qed.

(** The groups of indices behind the batches of a pass. *)
Lemma loader_pass_groups (g : nat -> scalar) (N : nat) (ds : MyDataset)
    (B : nat) (sh dlast : bool) (w : nat) (dl : DataLoader) (draws : nat -> nat) :
  MyDataset_init g N = Ok ds ->
  DataLoader_init ds B sh dlast w = Ok dl ->
  let order := if sh then randperm draws N else seq 0 N in
  let groups := batch_sampler B dlast order [] in
  DataLoader_iter dl draws = Ok (map (collated ds) groups) /\
  order ≡ₚ seq 0 N /\
  Forall (fun idxs => idxs <> [] /\ Forall (fun i => i < N) idxs) groups.
Proof.
  intros Hinit Hdl order groups.
  destruct (DataLoader_iter_Ok g N ds B sh dlast w dl draws Hinit Hdl)
    as (HB & Hiter & Hsizes).
  assert (Hperm : order ≡ₚ seq 0 N).
  { subst order. destruct sh; [apply randperm_perm|done]. }
  split; [exact Hiter|]. split; [exact Hperm|].
  assert (Hlt : Forall (Forall (fun i => i < N)) groups).
  { apply batch_sampler_subset; [constructor|].
    rewrite Hperm. apply Forall_forall. intros i Hi%elem_of_seq. lia. }
  assert (Hpos : Forall (fun k => 0 < k) (map length groups)).
  { fold order groups in Hsizes. rewrite Hsizes. by apply pass_sizes_pos. }
  apply Forall_forall. intros idxs Hin. split.
  - rewrite Forall_forall in Hpos.
    specialize (Hpos (length idxs)). intros ->. cbn in Hpos.
    assert (0 < 0); [|lia]. apply Hpos.
    change (map length groups) with (length <$> groups).
    apply list_elem_of_fmap. by exists [].
  - rewrite Forall_forall in Hlt. by apply Hlt.
Qed.

Lemma collated_row (g : nat -> scalar) (N : nat) (ds : MyDataset) (idxs : list nat)
    (r i : nat) :
  MyDataset_init g N = Ok ds ->
  Forall (fun i => i < N) idxs ->
  idxs !! r = Some i ->
  chunk 256 r (data (collated ds idxs).1) = chunk 256 i (data (samples ds)) /\
  data (collated ds idxs).2 !! r = Some (derive_label (chunk 256 i (data (samples ds)))).
Proof.
  intros Hinit Hlt Hr. pose proof (samples_length g N ds Hinit) as Hlen.
  unfold collated. cbn [fst snd data]. split.
  - apply (chunk_concat_map (fun i => chunk 256 i (data (samples ds)))); [|done].
    eapply Forall_impl; [exact Hlt|]. intros j Hj. cbv beta in Hj. apply chunk_length. lia.
  - change (map ?f idxs) with (f <$> idxs). by rewrite list_lookup_fmap, Hr.
Qed.

End DataExtras.


(** X2. Shuffling and batching never separate a sample from its label:
    every batch of a pass has [n > 0] rows of 256 entries and [n] labels,
    and each row is a sample of the data set, stored in the batch with the
    label derived from it, which is the label the data set holds for it. *)
Theorem X2_loader_rows_keep_their_labels `{Sc : Scalar}
    (g : nat -> scalar) (N : nat) (ds : MyDataset)
    (B : nat) (sh dlast : bool) (w : nat) (dl : DataLoader) (draws : nat -> nat)
    (batches : list batch) :
  MyDataset_init g N = Ok ds ->
  DataLoader_init ds B sh dlast w = Ok dl ->
  DataLoader_iter dl draws = Ok batches ->
  Forall (fun b : batch =>
    exists n, 0 < n /\
      shape b.1 = [n; 256] /\ shape b.2 = [n] /\
      length (data b.1) = n * 256 /\ length (data b.2) = n /\
      forall r, r < n ->
        data b.2 !! r = Some (derive_label (chunk 256 r (data b.1))) /\
        exists i, i < N /\
          item_at ds i = (Tensor [256] (chunk 256 r (data b.1)),
                          Tensor [] [derive_label (chunk 256 r (data b.1))]))
    batches.
Proof.
  intros Hinit Hdl Hiter.
  destruct (loader_pass_groups g N ds B sh dlast w dl draws Hinit Hdl)
    as (Hiter' & _ & Hgroups).
  rewrite Hiter' in Hiter. injection Hiter as <-.
  apply Forall_forall. intros b Hb.
  change (map ?f ?l) with (f <$> l) in Hb.
  apply list_elem_of_fmap in Hb as (idxs & -> & Hin).
  rewrite Forall_forall in Hgroups. destruct (Hgroups idxs Hin) as [Hne Hlt].
  pose proof (samples_length g N ds Hinit) as Hlen.
  exists (length idxs). split; [destruct idxs; [done|cbn; lia]|].
  split; [done|]. split; [done|]. split; [|split].
  - unfold collated. cbn [fst data].
    assert (Hrows : Forall (fun j => length (chunk 256 j (data (samples ds))) = 256) idxs).
    { eapply Forall_impl; [exact Hlt|]. intros j Hj. cbv beta in Hj. apply chunk_length. lia. }
    clear -Hrows. induction Hrows as [|j idxs Hj _ IH]; [done|].
    cbn [map concat length]. rewrite length_app, Hj, IH. lia.
  - unfold collated. cbn [snd data]. by rewrite length_map.
  - intros r Hr. destruct (lookup_lt_is_Some_2 idxs r Hr) as [i Hi].
    destruct (collated_row g N ds idxs r i Hinit Hlt Hi) as [Hrow Hlab].
    rewrite Hrow. split; [done|]. exists i.
    rewrite Forall_forall in Hlt. assert (i < N) by (apply Hlt; by eapply list_elem_of_lookup_2).
    split; [done|]. by apply (item_at_spec g N).
Qed.

Lemma length_concat_sum {A} (ls : list (list A)) :
  length (concat ls) = sum_list (map length ls).
Proof.
  induction ls as [|l ls IH]; [done|]. cbn [concat map]. rewrite length_app, IH. done.
Qed.

Lemma pass_sizes_total (n bs : nat) (dl : bool) :
  bs <> 0 -> sum_list (pass_sizes n bs dl) = if dl then n / bs * bs else n.
Proof.
  intros Hbs. destruct dl; [|by apply pass_sizes_sum].
  by rewrite pass_sizes_drop, sum_list_replicate.
Qed.

(** X3. In one pass no item is fetched twice.  The pass covers
    [N / B * B] items with drop-last and all [N] items without; without
    drop-last it is a permutation of the data set, and without shuffling
    the items come in their order. *)
Theorem X3_loader_pass_visits_each_item_once `{Sc : Scalar}
    (g : nat -> scalar) (N : nat) (ds : MyDataset)
    (B : nat) (sh dlast : bool) (w : nat) (dl : DataLoader) (draws : nat -> nat) :
  MyDataset_init g N = Ok ds ->
  DataLoader_init ds B sh dlast w = Ok dl ->
  exists groups : list (list nat),
    DataLoader_iter dl draws = Ok (map (collated ds) groups) /\
    NoDup (concat groups) /\
    Forall (fun i => i < N) (concat groups) /\
    length (concat groups) = (if dlast then N / B * B else N) /\
    (dlast = false -> concat groups ≡ₚ seq 0 N) /\
    (sh = false -> concat groups = seq 0 (if dlast then N / B * B else N)).
Proof.
  intros Hinit Hdl.
  destruct (loader_pass_groups g N ds B sh dlast w dl draws Hinit Hdl)
    as (Hiter & Hperm & Hgroups).
  destruct (DataLoader_iter_Ok g N ds B sh dlast w dl draws Hinit Hdl)
    as (HB & _ & Hsizes).
  set (order := if sh then randperm draws N else seq 0 N) in *.
  set (groups := batch_sampler B dlast order []) in *.
  exists groups. split; [exact Hiter|].
  destruct (batch_sampler_prefix B dlast order []) as [rest Hrest].
  fold groups in Hrest. rewrite app_nil_l in Hrest.
  assert (Hnd : NoDup order) by (rewrite Hperm; apply NoDup_seq).
  assert (Hlen : length (concat groups) = if dlast then N / B * B else N).
  { by rewrite length_concat_sum, Hsizes, pass_sizes_total. }
  split; [|split; [|split; [|split]]].
  - rewrite Hrest in Hnd. by apply NoDup_app in Hnd as (? & _).
  - assert (Hlt : Forall (fun i => i < N) order).
    { rewrite Hperm. apply Forall_forall. intros i Hi%elem_of_seq. lia. }
    rewrite Hrest in Hlt. by apply Forall_app in Hlt as [? _].
  - exact Hlen.
  - intros ->. subst groups. by rewrite batch_sampler_concat, app_nil_l.
  - intros ->. subst order. cbv iota in Hrest.
    rewrite <- (take_app_length (concat groups) rest), <- Hrest, Hlen, take_seq.
    f_equal. destruct dlast; [|lia].
    pose proof (Nat.Div0.mul_div_le N B). lia.
Qed.

(** X4. A pass without shuffling and without drop-last, as the test
    loader makes it, hands over the data set itself: the samples of the
    batches put end to end are the stored samples, and their labels the
    stored labels. *)
Theorem X4_ordered_pass_reproduces_dataset `{Sc : Scalar}
    (g : nat -> scalar) (N : nat) (ds : MyDataset)
    (B : nat) (w : nat) (dl : DataLoader) (draws : nat -> nat) (batches : list batch) :
  MyDataset_init g N = Ok ds ->
  DataLoader_init ds B false false w = Ok dl ->
  DataLoader_iter dl draws = Ok batches ->
  concat (map (fun b : batch => data b.1) batches) = data (samples ds) /\
  concat (map (fun b : batch => data b.2) batches) = data (labels ds).
Proof.
  intros Hinit Hdl Hiter.
  destruct (loader_pass_groups g N ds B false false w dl draws Hinit Hdl)
    as (Hiter' & _ & _).
  rewrite Hiter' in Hiter. injection Hiter as <-. cbv zeta.
  set (groups := batch_sampler B false (seq 0 N) []).
  assert (Hcat : concat groups = seq 0 N).
  { subst groups. by rewrite batch_sampler_concat, app_nil_l. }
  rewrite !map_map. unfold collated. cbn [fst snd data]. split.
  - rewrite (concat_map_concat (fun i => chunk 256 i (data (samples ds)))), Hcat.
    apply concat_chunks. by apply (samples_length g N).
  - rewrite <- concat_map, Hcat.
    by destruct (MyDataset_init_Ok g N ds Hinit) as (_ & _ & ->).
Qed.

Lemma X2_witness :
  Forall (fun b : batch =>
    exists n, 0 < n /\
      shape b.1 = [n; 256] /\ shape b.2 = [n] /\
      length (data b.1) = n * 256 /\ length (data b.2) = n /\
      forall r, r < n ->
        data b.2 !! r = Some (derive_label (chunk 256 r (data b.1))) /\
        exists i, i < 2 /\
          item_at demo_dataset i = (Tensor [256] (chunk 256 r (data b.1)),
                                    Tensor [] [derive_label (chunk 256 r (data b.1))]))
    (map (collated demo_dataset) (batch_sampler 3 false (randperm (fun i => i) 2) [])).
Proof.
  apply (X2_loader_rows_keep_their_labels (Sc := Q_scalar)
           demo_rand 2 demo_dataset 3 true false 2 demo_dataloader (fun i => i)).
  - exact demo_dataset_built.
  - reflexivity.
  - by destruct (loader_pass_groups (Sc := Q_scalar) demo_rand 2 demo_dataset 3 true false 2
                   demo_dataloader (fun i => i) demo_dataset_built eq_refl) as (-> & _).
Defined.

Lemma X3_witness :
  exists groups : list (list nat),
    DataLoader_iter demo_dataloader (fun i => i) = Ok (map (collated demo_dataset) groups) /\
    NoDup (concat groups) /\
    Forall (fun i => i < 2) (concat groups) /\
    length (concat groups) = 2 /\
    (false = false -> concat groups ≡ₚ seq 0 2) /\
    (true = false -> concat groups = seq 0 2).
Proof.
  apply (X3_loader_pass_visits_each_item_once (Sc := Q_scalar)
           demo_rand 2 demo_dataset 3 true false 2 demo_dataloader (fun i => i)).
  - exact demo_dataset_built.
  - reflexivity.
Defined.

Lemma X4_witness :
  let batches := map (collated demo_dataset) (batch_sampler 1 false (seq 0 2) []) in
  concat (map (fun b : batch => data b.1) batches) = data (samples demo_dataset) /\
  concat (map (fun b : batch => data b.2) batches) = data (labels demo_dataset).
Proof.
  apply (X4_ordered_pass_reproduces_dataset (Sc := Q_scalar)
           demo_rand 2 demo_dataset 1 0
           {| dataset := demo_dataset; batch_size := 1; shuffle := false;
              drop_last := false; num_workers := 0 |} (fun i => i)).
  - exact demo_dataset_built.
  - reflexivity.
  - by destruct (loader_pass_groups (Sc := Q_scalar) demo_rand 2 demo_dataset 1 false false 0
                   _ (fun i => i) demo_dataset_built eq_refl) as (-> & _).
Defined.

(** ** The model *)

Section ModelExtras.
Context `{Sc : Scalar}.

Lemma numel_singleton (n : nat) : numel [n] = n.
Proof. unfold numel. cbn. lia. Qed.

Lemma linear_row_length (i o : nat) (W b x : list scalar) :
  length (linear_row i o W b x) = o.
Proof. unfold linear_row. by rewrite length_map, length_seq. Qed.

Lemma linear_data_length (i o : nat) (W b : list scalar) (x y : tensor scalar) :
  linear i o W b x = Ok y ->
  length (data y) = numel (List.removelast (shape x)) * o.
Proof.
  unfold linear. destruct (last (shape x)) as [d|]; [|done].
  destruct (d =? i); [|done]. intros [= <-]. cbn [data].
  generalize (numel (List.removelast (shape x))). intros n.
  generalize 0 at 1.
  induction n as [|n IH]; intros s; [done|].
  cbn [seq map concat]. rewrite length_app, linear_row_length, IH. lia.
Qed.

Lemma linear_spec (i o : nat) (W b : list scalar) (x : tensor scalar) :
  linear i o W b x =
    if bool_decide (last (shape x) = Some i)
    then Ok (Tensor (List.removelast (shape x) ++ [o])
               (concat (map (fun k => linear_row i o W b (chunk i k (data x)))
                            (seq 0 (numel (List.removelast (shape x)))))))
    else Err RuntimeError.
Proof.
  unfold linear. destruct (last (shape x)) as [d|] eqn:Hl.
  - destruct (Nat.eqb_spec d i) as [->|Hne].
    + by rewrite bool_decide_eq_true_2.
    + rewrite bool_decide_eq_false_2; [done|]. by intros [= ->].
  - by rewrite bool_decide_eq_false_2.
Qed.

End ModelExtras.

Lemma MyModel_forward_shape_draws `{Sc : Scalar}
    (m : MyModel) (coin : nat -> bool) (x : tensor scalar) (pos : nat) :
  (fun r => (shape r.1, r.2)) <$> MyModel_forward m coin x pos =
    if bool_decide (last (shape x) = Some (in_dim m))
    then Ok (List.removelast (shape x) ++ [out_dim m],
             if training m then pos + numel (List.removelast (shape x)) * 128 else pos)
    else Err RuntimeError.
Proof.
  rewrite MyModel_forward_steps. unfold forward_steps.
  set (centered := tensor_map _ x).
  destruct (linear (in_dim m) 128 (net_0_weight (params m)) (net_0_bias (params m)) centered)
    as [hidden|e] eqn:Hh.
  2:{ rewrite linear_spec in Hh. change (shape centered) with (shape x) in Hh.
      destruct (bool_decide (last (shape x) = Some (in_dim m))); [done|].
      by injection Hh as <-. }
  pose proof (linear_data_length _ _ _ _ _ _ Hh) as Hlen.
  rewrite linear_spec in Hh. change (shape centered) with (shape x) in *.
  destruct (bool_decide (last (shape x) = Some (in_dim m))); [|done].
  injection Hh as Hh. cbn [mbind result_bind].
  set (dropped := if training m then dropout _ _ _ else _).
  assert (Hd : shape dropped = List.removelast (shape x) ++ [128]).
  { subst dropped. rewrite <- Hh. by destruct (training m). }
  destruct (linear_Ok 128 (out_dim m) (net_3_weight (params m)) (net_3_bias (params m))
              dropped _ Hd) as (y & -> & Hy).
  cbn [mbind result_bind fmap result_fmap fst snd]. rewrite Hy. do 2 f_equal.
  destruct (training m); [|done].
  unfold tensor_map. cbn [data]. by rewrite length_map, Hlen.
Qed.

(** X5. The forward pass accepts exactly the inputs whose last dimension
    is [in_dim] and raises a shape error on all others.  On an accepted
    input the scores keep the leading dimensions and have [out_dim] as
    last dimension, and the pass draws from the random source once per
    hidden unit (128 per sample) in training mode and not at all in
    evaluation mode. *)
Theorem X5_forward_shapes_and_draws `{Sc : Scalar}
    (m : MyModel) (coin : nat -> bool) (x : tensor scalar) (pos : nat) :
  (fun r => (shape r.1, r.2)) <$> MyModel_forward m coin x pos =
    if bool_decide (last (shape x) = Some (in_dim m))
    then Ok (List.removelast (shape x) ++ [out_dim m],
             if training m then pos + numel (List.removelast (shape x)) * 128 else pos)
    else Err RuntimeError.
Proof. apply MyModel_forward_shape_draws. Qed.

(** ** The epoch loop *)

Section EpochExtras.
Context `{T : Torch}.

Lemma bind_inv {A B} (c : M A) (f : A -> M B) (w w' : world) (b : B) :
  (c ≫= f) w = (Ok b, w') -> exists a w1, c w = (Ok a, w1) /\ f a w1 = (Ok b, w').
Proof.
  unfold mbind, M_bind. destruct (c w) as [[a|e] w1]; [|done]. by eauto.
Qed.

Lemma same_architecture_refl (w : world) : same_architecture w w.
Proof. done. Qed.

Lemma same_architecture_trans (w1 w2 w3 : world) :
  same_architecture w1 w2 -> same_architecture w2 w3 -> same_architecture w1 w3.
Proof. intros (? & ? & ?) (? & ? & ?). repeat split; congruence. Qed.

Lemma keeps_bind {A B} (R : world -> world -> Prop) (c : M A) (f : A -> M B) :
  (forall w1 w2 w3, R w1 w2 -> R w2 w3 -> R w1 w3) ->
  keeps R c -> (forall a, keeps R (f a)) -> keeps R (c ≫= f).
Proof.
  intros Htrans Hc Hf w. specialize (Hc w). unfold mbind, M_bind.
  destruct (c w) as [[a|e] w1]; cbn [snd] in *; [|done].
  eapply Htrans; [exact Hc|apply Hf].
Qed.

Lemma keeps_arch_bind {A B} (c : M A) (f : A -> M B) :
  keeps same_architecture c -> (forall a, keeps same_architecture (f a)) ->
  keeps same_architecture (c ≫= f).
Proof. apply keeps_bind, same_architecture_trans. Qed.

Lemma keeps_arch_pure {A} (r : result A) : keeps same_architecture (lift r).
Proof. by intros w. Qed.

Lemma keeps_arch_log (c : call) : keeps same_architecture (log c).
Proof. by intros w. Qed.

Lemma keeps_arch_call_model (samples : tensor scalar) :
  keeps same_architecture (call_model samples).
Proof.
  unfold call_model.
  apply keeps_arch_bind; [apply keeps_arch_log|intros _].
  apply keeps_arch_bind; [by intros w|intros w0].
  apply keeps_arch_bind; [apply keeps_arch_pure|intros r].
  apply keeps_arch_bind; [by intros w|intros _]. by intros w.
Qed.

Lemma keeps_arch_loop_body (optimizer : option optimizer) (mode : string) (b : batch) :
  keeps same_architecture (loop_body optimizer mode b).
Proof.
  unfold loop_body. destruct b as [samples labels].
  apply keeps_arch_bind; [by intros w|intros w0].
  apply keeps_arch_bind; [apply keeps_arch_call_model|intros out].
  apply keeps_arch_bind.
  { unfold cross_entropy. apply keeps_arch_bind; [apply keeps_arch_log|intros _].
    apply keeps_arch_pure. }
  intros loss. apply keeps_arch_bind; [|intros _; by intros w].
  destruct (String.eqb mode "train"); [|by intros w].
  destruct optimizer as [o|]; [|by intros w].
  apply keeps_arch_bind.
  { unfold zero_grad. apply keeps_arch_bind; [apply keeps_arch_log|intros _]. by intros w. }
  intros _. apply keeps_arch_bind.
  { unfold backward. apply keeps_arch_bind; [apply keeps_arch_log|intros _]. by intros w. }
  intros _. unfold step. apply keeps_arch_bind; [apply keeps_arch_log|intros _]. by intros w.
Qed.

Lemma keeps_arch_epoch_loop (optimizer : option optimizer) (mode : string)
    (loader : list batch) (ns nc : nat) (l0 : option scalar) :
  keeps same_architecture (epoch_loop optimizer mode loader ns nc l0).
Proof.
  revert ns nc l0. induction loader as [|b rest IH]; intros ns nc l0; cbn [epoch_loop].
  - apply keeps_arch_bind; [apply keeps_arch_pure|intros acc].
    apply keeps_arch_bind; [apply keeps_arch_pure|intros l]. by intros w.
  - apply keeps_arch_bind; [apply keeps_arch_loop_body|intros r].
    apply keeps_arch_bind; [apply keeps_arch_pure|intros n].
    apply keeps_arch_bind; [apply keeps_arch_pure|intros pred].
    apply keeps_arch_bind; [apply keeps_arch_pure|intros c]. apply IH.
Qed.

Ltac run_M :=
  unfold call_model, cross_entropy, zero_grad, backward, step, log, modify, get, lift,
    raise, mbind, M_bind, mret, M_ret;
  cbn [w_model w_rng w_grad w_optim w_calls fst snd].

Lemma call_model_effects (samples : tensor scalar) (w : world) (B : nat) :
  shape samples = [B; in_dim (w_model w)] ->
  exists out,
    shape out = [B; out_dim (w_model w)] /\
    call_model samples w =
      (Ok out, World (w_model w) (w_grad w) (w_optim w)
                 (if training (w_model w) then w_rng w + B * 128 else w_rng w)
                 (w_calls w ++ [CallForward])).
Proof.
  intros Hs.
  destruct (MyModel_forward_Ok (w_model w) coin samples (w_rng w) B Hs)
    as (out & pos & Hf & Hout).
  pose proof (MyModel_forward_shape_draws (w_model w) coin samples (w_rng w)) as Hd.
  rewrite Hf, Hs in Hd. cbn [fmap result_fmap fst snd last List.removelast] in Hd.
  rewrite bool_decide_eq_true_2, numel_singleton in Hd by done. injection Hd as _ ->.
  exists out. split; [done|]. run_M. by rewrite Hf.
Qed.

Lemma loop_body_effects (optimizer : option optimizer) (mode : string) (b : batch)
    (w : world) (B : nat) :
  shape b.1 = [B; in_dim (w_model w)] ->
  shape b.2 = [B] ->
  Forall (fun l => (0 <= l < Z.of_nat (out_dim (w_model w)))%Z) (data b.2) ->
  (mode = "train" -> optimizer <> None) ->
  exists out w',
    loop_body optimizer mode b w = (Ok (out, ce_loss out b.2), w') /\
    w_rng w' = (if training (w_model w) then w_rng w + B * 128 else w_rng w) /\
    w_calls w' = w_calls w ++ calls_per_batch mode.
Proof.
  destruct b as [samples labels]. cbn [fst snd]. intros Hs Hl Hv Hopt.
  destruct (call_model_effects samples w B Hs) as (out & Hout & Hcall).
  exists out. unfold loop_body.
  rewrite (bind_Ok get _ w w w eq_refl).
  rewrite (bind_Ok _ _ _ _ _ Hcall).
  erewrite (bind_Ok (cross_entropy out labels)); [|by eapply cross_entropy_Ok].
  cbn [w_model w_rng w_grad w_optim w_calls]. unfold calls_per_batch.
  destruct (String.eqb_spec mode "train") as [->|Hmode].
  - destruct optimizer as [o|]; [|by destruct Hopt].
    eexists. split; [run_M; reflexivity|]. cbn [w_rng w_calls].
    split; [done|]. by rewrite <- !app_assoc.
  - eexists. split; [run_M; reflexivity|]. cbn [w_rng w_calls].
    split; [done|]. by rewrite <- !app_assoc.
Qed.

Lemma epoch_outputs_effects (optimizer : option optimizer) (mode : string)
    (loader : list batch) :
  (mode = "train" -> optimizer <> None) ->
  forall w : world,
  Forall (batch_ok (w_model w)) loader ->
  exists rs w',
    epoch_outputs optimizer mode loader w = (Ok rs, w') /\
    w_rng w' = w_rng w +
      (if training (w_model w) then 128 * sum_list (map batch_count loader) else 0) /\
    w_calls w' = w_calls w ++ concat (map (fun _ => calls_per_batch mode) loader).
Proof.
  intros Hopt. induction loader as [|b rest IH]; intros w Hok.
  - exists [], w. cbn. rewrite app_nil_r. split; [done|]. split; [|done].
    destruct (training (w_model w)); lia.
  - apply Forall_cons in Hok as [Hb Hrest].
    destruct Hb as (B & HB & Hs & Hl & Hlen & Hv).
    destruct (loop_body_effects optimizer mode b w B Hs Hl Hv Hopt)
      as (out & w1 & Hbody & Hrng & Hcalls).
    pose proof (keeps_arch_loop_body optimizer mode b w) as (Hi & Ho & Ht).
    rewrite Hbody in Hi, Ho, Ht. cbn [snd] in Hi, Ho, Ht.
    destruct (IH w1) as (rs & w' & Houts & Hrng' & Hcalls').
    { eapply Forall_impl; [exact Hrest|]. intros b'. by apply batch_ok_dims. }
    exists ((b, out, ce_loss out b.2) :: rs), w'. split; [|split].
    + cbn [epoch_outputs]. rewrite (bind_Ok _ _ _ _ _ Hbody).
      by rewrite (bind_Ok _ _ _ _ _ Houts).
    + rewrite Hrng', Hrng, Ht. cbn [map]. unfold batch_count at 2. rewrite Hs. cbn [hd].
      destruct (training (w_model w)); [|lia].
      change (sum_list (B :: ?l)) with (B + sum_list l). lia.
    + rewrite Hcalls', Hcalls. cbn [map concat]. by rewrite <- app_assoc.
Qed.

Lemma epoch_loop_end_world (optimizer : option optimizer) (mode : string)
    (ns nc : nat) (l0 : option scalar) (w : world) :
  (epoch_loop optimizer mode [] ns nc l0 w).2 = w.
Proof.
  cbn [epoch_loop]. unfold lift, mbind, M_bind, mret, M_ret.
  destruct (truediv nc ns); [|done]. by destruct l0.
Qed.

Lemma forward_eval_pos (m : MyModel) (coin : nat -> bool) (x : tensor scalar) (pos : nat) :
  training m = false ->
  MyModel_forward m coin x pos = (fun r => (r.1, pos)) <$> MyModel_forward m coin x 0.
Proof.
  intros Htr. rewrite !MyModel_forward_steps. unfold forward_steps. rewrite Htr.
  destruct (linear (in_dim m) 128 _ _ _) as [hidden|e]; [|done].
  cbn [mbind result_bind]. by destruct (linear 128 (out_dim m) _ _ _).
Qed.

Lemma cross_entropy_run (out : tensor scalar) (labels : tensor Z) :
  exists r, forall w,
    cross_entropy out labels w =
      (r, World (w_model w) (w_grad w) (w_optim w) (w_rng w)
            (w_calls w ++ [CallCrossEntropy])).
Proof. eexists. intros w. run_M. reflexivity. Qed.

(** In evaluation mode and outside train mode the body of the loop
    returns what the model alone determines, and leaves the random
    position alone. *)
Lemma loop_body_eval (optimizer : option optimizer) (mode : string) (b : batch)
    (w w2 : world) :
  mode <> "train" ->
  training (w_model w) = false ->
  w_model w2 = w_model w ->
  (loop_body optimizer mode b w2).1 = (loop_body optimizer mode b w).1 /\
  w_rng (loop_body optimizer mode b w).2 = w_rng w.
Proof.
  intros Hmode%String.eqb_neq Htr Hm. destruct b as [samples labels].
  unfold loop_body. rewrite Hmode.
  unfold call_model, log, modify, get, lift, mbind, M_bind, mret, M_ret.
  cbn [w_model w_rng w_grad w_optim w_calls fst snd]. rewrite Hm.
  rewrite (forward_eval_pos _ _ _ (w_rng w2)), (forward_eval_pos _ _ _ (w_rng w)) by done.
  destruct (MyModel_forward (w_model w) coin samples 0) as [[out pos]|e];
    cbn [fmap result_fmap fst snd]; [|done].
  destruct (cross_entropy_run out labels) as [r Hce]. rewrite !Hce.
  by destruct r.
Qed.

Lemma lift_bind {A B} (r : result A) (f : A -> M B) (w : world) :
  (lift r ≫= f) w = match r with Ok a => f a w | Err e => (Err e, w) end.
Proof. by destruct r. Qed.

Lemma epoch_loop_eval (optimizer : option optimizer) (mode : string) (loader : list batch) :
  mode <> "train" ->
  forall (ns nc : nat) (l0 : option scalar) (w w2 : world),
  training (w_model w) = false ->
  w_model w2 = w_model w ->
  (epoch_loop optimizer mode loader ns nc l0 w2).1
  = (epoch_loop optimizer mode loader ns nc l0 w).1 /\
  w_rng (epoch_loop optimizer mode loader ns nc l0 w).2 = w_rng w.
Proof.
  intros Hmode. induction loader as [|b rest IH]; intros ns nc l0 w w2 Htr Hm.
  - rewrite epoch_loop_end_world. split; [|done].
    cbn [epoch_loop]. unfold lift, mbind, M_bind, mret, M_ret.
    destruct (truediv nc ns); [|done]. by destruct l0.
  - destruct (loop_body_eval optimizer mode b w w2 Hmode Htr Hm) as [Hres Hrng].
    pose proof (preserves_loop_body optimizer mode b Hmode w) as (Hm1 & _).
    pose proof (preserves_loop_body optimizer mode b Hmode w2) as (Hm2 & _).
    cbn [epoch_loop].
    destruct (loop_body optimizer mode b w) as [[r|e] w1] eqn:Hb;
      destruct (loop_body optimizer mode b w2) as [[r2|e2] w1'] eqn:Hb2;
      cbn [fst snd] in *; try discriminate.
    + injection Hres as ->.
      rewrite (bind_Ok _ _ _ _ _ Hb), (bind_Ok _ _ _ _ _ Hb2).
      rewrite !lift_bind.
      destruct (tensor_len b.1) as [n|]; [|done].
      rewrite !lift_bind.
      destruct (tensor_argmax1 r.1) as [pred|]; [|done].
      rewrite !lift_bind.
      destruct (tensor_eq_count pred b.2) as [c|]; [|done].
      destruct (IH (ns + n) (nc + c) (Some r.2) w1 w1') as [IH1 IH2]; [congruence..|].
      split; [done|]. congruence.
    + injection Hres as ->.
      by rewrite (bind_Err _ _ _ _ _ Hb), (bind_Err _ _ _ _ _ Hb2).
Qed.

End EpochExtras.

(** X7. The epoch runner never changes the sizes of the model nor its
    train/eval flag, whatever the loader, the optimiser and the mode, and
    whether it returns or raises.  In particular the [mode] argument does
    not switch dropout on or off: that is left to [model.train()] and
    [model.eval()]. *)
Theorem X7_epoch_runner_keeps_architecture_and_flag `{T : Torch}
    (w : world) (loader : list batch) (optimizer : option optimizer) (mode : string) :
  in_dim (w_model (single_epoch_loop loader optimizer mode w).2) = in_dim (w_model w) /\
  out_dim (w_model (single_epoch_loop loader optimizer mode w).2) = out_dim (w_model w) /\
  training (w_model (single_epoch_loop loader optimizer mode w).2) = training (w_model w).
Proof. apply (keeps_arch_epoch_loop optimizer mode loader 0 0 None w). Qed.

(** X8. On batches that the model and the loss accept, with an optimiser
    whenever the mode is 'train', the runner makes for every batch one
    forward call and one loss call, followed in mode 'train' by
    zero_grad, backward and step in this order, so one optimiser step per
    batch and none otherwise.  Dropout draws 128 coins per sample whenever
    the model is in training mode, in every mode of the runner, and none
    when the model is in evaluation mode. *)
Theorem X8_epoch_calls_and_random_draws `{T : Torch}
    (w : world) (loader : list batch) (optimizer : option optimizer) (mode : string) :
  Forall (batch_ok (w_model w)) loader ->
  (mode = "train" -> optimizer <> None) ->
  w_calls (single_epoch_loop loader optimizer mode w).2
  = w_calls w ++ concat (map (fun _ => calls_per_batch mode) loader) /\
  w_rng (single_epoch_loop loader optimizer mode w).2
  = w_rng w + (if training (w_model w)
               then 128 * sum_list (map batch_count loader) else 0).
Proof.
  intros Hok Hopt.
  destruct (epoch_loop_run optimizer mode loader Hopt w 0 0 None Hok)
    as (rs & w' & Houts & _ & _ & _ & _ & Hloop).
  destruct (epoch_outputs_effects optimizer mode loader Hopt w Hok)
    as (rs2 & w2 & Houts2 & Hrng & Hcalls).
  rewrite Houts in Houts2. injection Houts2 as <- <-.
  unfold single_epoch_loop. rewrite Hloop, epoch_loop_end_world. done.
Qed.

Lemma X8_witness :
  w_calls (single_epoch_loop demo_loader (Some Optimizer) "train" demo_world).2
  = w_calls demo_world ++ concat (map (fun _ => calls_per_batch "train") demo_loader) /\
  w_rng (single_epoch_loop demo_loader (Some Optimizer) "train" demo_world).2
  = w_rng demo_world + (if training (w_model demo_world)
                        then 128 * sum_list (map batch_count demo_loader) else 0).
Proof.
  apply (X8_epoch_calls_and_random_draws (T := demo_torch)
           demo_world demo_loader (Some Optimizer) "train").
  - exact demo_loader_ok.
  - discriminate.
Defined.

(** X9. Evaluation is repeatable: with the model in evaluation mode and
    a mode other than 'train', what the runner returns or raises is
    determined by the model and the batches alone; the call leaves the
    model and the position of the random source as they were, so that
    running it again gives the same outcome. *)
Theorem X9_evaluation_is_repeatable `{T : Torch}
    (w : world) (loader : list batch) (optimizer : option optimizer) (mode : string) :
  mode <> "train" ->
  training (w_model w) = false ->
  w_model (single_epoch_loop loader optimizer mode w).2 = w_model w /\
  w_rng (single_epoch_loop loader optimizer mode w).2 = w_rng w /\
  (single_epoch_loop loader optimizer mode
     (single_epoch_loop loader optimizer mode w).2).1
  = (single_epoch_loop loader optimizer mode w).1 /\
  forall w2, w_model w2 = w_model w ->
    (single_epoch_loop loader optimizer mode w2).1
    = (single_epoch_loop loader optimizer mode w).1.
Proof.
  intros Hmode Htr.
  pose proof (preserves_epoch_loop optimizer mode loader 0 0 None Hmode w) as (Hm & _).
  fold (single_epoch_loop loader optimizer mode) in Hm.
  assert (Hind : forall w2, w_model w2 = w_model w ->
            (single_epoch_loop loader optimizer mode w2).1
            = (single_epoch_loop loader optimizer mode w).1).
  { intros w2 Hw2.
    by destruct (epoch_loop_eval optimizer mode loader Hmode 0 0 None w w2 Htr Hw2). }
  split; [exact Hm|]. split; [|split; [by apply Hind|exact Hind]].
  by destruct (epoch_loop_eval optimizer mode loader Hmode 0 0 None w w Htr eq_refl).
Qed.

Lemma X9_witness :
  w_model (single_epoch_loop demo_loader None "test" demo_eval_world).2
  = w_model demo_eval_world /\
  w_rng (single_epoch_loop demo_loader None "test" demo_eval_world).2
  = w_rng demo_eval_world /\
  (single_epoch_loop demo_loader None "test"
     (single_epoch_loop demo_loader None "test" demo_eval_world).2).1
  = (single_epoch_loop demo_loader None "test" demo_eval_world).1 /\
  forall w2, w_model w2 = w_model demo_eval_world ->
    (single_epoch_loop demo_loader None "test" w2).1
    = (single_epoch_loop demo_loader None "test" demo_eval_world).1.
Proof.
  apply (X9_evaluation_is_repeatable (T := demo_torch)
           demo_eval_world demo_loader None "test").
  - discriminate.
  - reflexivity.
Defined.

(** ** From the data set to the accuracy *)

Section PipelineExtras.
Context `{T : Torch}.

(** Every batch of a loader pass over a constructed data set is accepted
    by a model of 256 inputs and 4 classes. *)
Lemma collated_batch_ok (g : nat -> scalar) (N : nat) (ds : MyDataset) (m : MyModel)
    (idxs : list nat) :
  MyDataset_init g N = Ok ds ->
  in_dim m = 256 -> out_dim m = 4 ->
  idxs <> [] ->
  batch_ok m (collated ds idxs).
Proof.
  intros Hinit Hi Ho Hne. exists (length idxs). unfold collated. cbn [fst snd shape data].
  rewrite Hi, Ho, length_map. split; [destruct idxs; [done|cbn; lia]|].
  repeat split. apply Forall_forall. intros l Hl.
  change (map ?f idxs) with (f <$> idxs) in Hl.
  apply list_elem_of_fmap in Hl as (i & -> & _). apply derive_label_range.
Qed.

Lemma loader_batches_ok (g : nat -> scalar) (N : nat) (ds : MyDataset) (m : MyModel)
    (groups : list (list nat)) :
  MyDataset_init g N = Ok ds ->
  in_dim m = 256 -> out_dim m = 4 ->
  Forall (fun idxs => idxs <> [] /\ Forall (fun i => i < N) idxs) groups ->
  Forall (batch_ok m) (map (collated ds) groups).
Proof.
  intros Hinit Hi Ho Hgroups. change (map ?f groups) with (f <$> groups).
  apply Forall_fmap. eapply Forall_impl; [exact Hgroups|].
  intros idxs [Hne _]. by apply (collated_batch_ok g N).
Qed.

Lemma collated_counts (ds : MyDataset) (groups : list (list nat)) :
  map batch_count (map (collated ds) groups) = map length groups.
Proof. rewrite map_map. by apply map_ext. Qed.

End PipelineExtras.

(** X10. The notebook's pipeline end to end: over a constructed data
    set of [N] items, a model of 256 inputs and 4 classes and any loader
    whose pass is not empty, the runner returns (with an optimiser when
    the mode is 'train'), and its accuracy is the number of correct
    predictions divided by the number of items the pass covers: all [N]
    without drop-last, [N / B * B] with it. *)
Theorem X10_epoch_over_loader_counts_every_sample `{T : Torch}
    (g : nat -> scalar) (N : nat) (ds : MyDataset)
    (B : nat) (sh dlast : bool) (nw : nat) (dl : DataLoader) (draws : nat -> nat)
    (w : world) (optimizer : option optimizer) (mode : string) :
  MyDataset_init g N = Ok ds ->
  DataLoader_init ds B sh dlast nw = Ok dl ->
  in_dim (w_model w) = 256 ->
  out_dim (w_model w) = 4 ->
  (mode = "train" -> optimizer <> None) ->
  (dlast = true -> B <= N) ->
  exists batches rs r_last w',
    DataLoader_iter dl draws = Ok batches /\
    epoch_outputs optimizer mode batches w = (Ok rs, w') /\
    last rs = Some r_last /\
    total_samples rs = (if dlast then N / B * B else N) /\
    0 < total_samples rs /\
    single_epoch_loop batches optimizer mode w
    = (Ok ((Z.of_nat (total_correct rs) # Pos.of_nat (total_samples rs))%Q, r_last.2), w').
Proof.
  intros Hinit Hdl Hi Ho Hopt Hfull.
  destruct (loader_pass_groups g N ds B sh dlast nw dl draws Hinit Hdl)
    as (Hiter & _ & Hgroups).
  destruct (DataLoader_iter_Ok g N ds B sh dlast nw dl draws Hinit Hdl)
    as (HB & _ & Hsizes).
  set (groups := batch_sampler B dlast _ []) in *.
  pose proof (loader_batches_ok g N ds (w_model w) groups Hinit Hi Ho Hgroups) as Hok.
  destruct (epoch_loop_run optimizer mode _ Hopt w 0 0 None Hok)
    as (rs & w' & Houts & Hmap & _ & _ & _ & Hloop).
  assert (Htotal : total_samples rs = if dlast then N / B * B else N).
  { unfold total_samples.
    rewrite <- (map_map (fun r : batch * tensor scalar * scalar => r.1.1) batch_count).
    by rewrite Hmap, collated_counts, Hsizes, pass_sizes_total. }
  assert (Hpos : 0 < total_samples rs).
  { rewrite Htotal. apply MyDataset_init_Ok in Hinit as (HN & _).
    destruct dlast; [|lia]. specialize (Hfull eq_refl).
    assert (1 <= N / B) by (apply Nat.div_le_lower_bound; lia). nia. }
  destruct (last rs) as [r_last|] eqn:Hlast.
  2:{ apply last_None in Hlast. subst rs. cbn in Hpos. lia. }
  exists (map (collated ds) groups), rs, r_last, w'.
  repeat split; try done.
  unfold single_epoch_loop. rewrite Hloop. cbn [epoch_loop Nat.add].
  unfold final_loss. rewrite Hlast. unfold truediv.
  destruct (Nat.eqb_spec (total_samples rs) 0); [lia|]. done.
Qed.


(** ** Checkpoints *)

Section CheckpointExtras.
Context `{P : Pickle}.

Lemma load_param_spec (sd : gmap string (tensor scalar)) (key : string)
    (expected : list nat) (old : list scalar) :
  (load_param sd key expected old).2 = true <->
  exists t, sd !! key = Some t /\ shape t = expected /\
            (load_param sd key expected old).1 = data t.
Proof.
  unfold load_param. destruct (sd !! key) as [t|].
  - case_bool_decide; cbn [fst snd].
    + split; [|done]. intros _. by exists t.
    + split; [done|]. by intros (t' & [= <-] & ? & _).
  - cbn [snd]. split; [done|]. by intros (t & ? & _).
Qed.

(** After a successful strict load the state dictionary of the model is
    the dictionary that was loaded. *)
Lemma load_state_dict_Ok (m : MyModel) (sd : gmap string (tensor scalar)) :
  (load_state_dict m sd).1 = Ok tt ->
  state_dict (load_state_dict m sd).2 = sd.
Proof.
  unfold load_state_dict.
  set (w0 := load_param sd "net.0.weight" _ _).
  set (b0 := load_param sd "net.0.bias" _ _).
  set (w3 := load_param sd "net.3.weight" _ _).
  set (b3 := load_param sd "net.3.bias" _ _).
  destruct (w0.2 && b0.2 && w3.2 && b3.2 && bool_decide (dom sd ⊆ dom (state_dict m)))%bool
    eqn:Hall; [|done].
  intros _. cbn [snd].
  apply andb_prop in Hall as [Hall Hdom%bool_decide_eq_true_1].
  apply andb_prop in Hall as [Hall (t4 & Hk4 & Hs4 & Hd4)%load_param_spec].
  apply andb_prop in Hall as [Hall (t3 & Hk3 & Hs3 & Hd3)%load_param_spec].
  apply andb_prop in Hall as [(t1 & Hk1 & Hs1 & Hd1)%load_param_spec
                               (t2 & Hk2 & Hs2 & Hd2)%load_param_spec].
  fold w0 in Hd1. fold b0 in Hd2. fold w3 in Hd3. fold b3 in Hd4.
  rewrite state_dict_dom in Hdom.
  unfold state_dict, with_params. cbn [in_dim out_dim params net_0_weight net_0_bias
    net_3_weight net_3_bias].
  rewrite Hd1, Hd2, Hd3, Hd4, <- Hs1, <- Hs3, <- Hs2, <- Hs4.
  apply map_eq. intros k.
  destruct (decide (k = "net.0.weight")) as [->|?].
  { rewrite lookup_insert_eq, Hk1. by destruct t1. }
  rewrite lookup_insert_ne by done.
  destruct (decide (k = "net.0.bias")) as [->|?].
  { rewrite lookup_insert_eq, Hk2. by destruct t2. }
  rewrite lookup_insert_ne by done.
  destruct (decide (k = "net.3.weight")) as [->|?].
  { rewrite lookup_insert_eq, Hk3. by destruct t3. }
  rewrite lookup_insert_ne by done.
  destruct (decide (k = "net.3.bias")) as [->|?].
  { rewrite lookup_singleton_eq, Hk4. by destruct t4. }
  rewrite lookup_singleton_ne by done.
  symmetry. apply not_elem_of_dom. intros Hk. specialize (Hdom _ Hk).
  rewrite !elem_of_union, !elem_of_singleton in Hdom. tauto.
Qed.


Lemma state_dict_shapes (m m' : MyModel) (k : string) (t t' : tensor scalar) :
  in_dim m' = in_dim m -> out_dim m' = out_dim m ->
  state_dict m !! k = Some t -> state_dict m' !! k = Some t' -> shape t = shape t'.
Proof.
  intros Hi Ho. destruct (state_dict_lookups m) as (H1 & H2 & H3 & H4).
  destruct (state_dict_lookups m') as (H1' & H2' & H3' & H4').
  intros Hk Hk'.
  assert (Hdom : k ∈ dom (state_dict m)) by (apply elem_of_dom; eauto).
  rewrite state_dict_dom, !elem_of_union, !elem_of_singleton in Hdom.
  destruct Hdom as [[[-> | ->] | ->] | ->];
    rewrite ?H1, ?H2, ?H3, ?H4 in Hk; rewrite ?H1', ?H2', ?H3', ?H4' in Hk';
    injection Hk as <-; injection Hk' as <-; cbn [shape]; congruence.
Qed.

Lemma load_state_dict_accepts (m : MyModel) (sd : gmap string (tensor scalar)) :
  dom sd = dom (state_dict m) ->
  (forall k t t', sd !! k = Some t -> state_dict m !! k = Some t' -> shape t = shape t') ->
  (load_state_dict m sd).1 = Ok tt.
Proof.
  intros Hdom Hshape. destruct (state_dict_lookups m) as (H1 & H2 & H3 & H4).
  assert (Hkey : forall k t', state_dict m !! k = Some t' ->
            exists t, sd !! k = Some t /\ shape t = shape t').
  { intros k t' Hk.
    assert (k ∈ dom sd) as [t Ht]%elem_of_dom by (rewrite Hdom; apply elem_of_dom; eauto).
    exists t. split; [done|]. by eapply Hshape. }
  destruct (Hkey _ _ H1) as (t1 & Hk1 & Hs1). destruct (Hkey _ _ H2) as (t2 & Hk2 & Hs2).
  destruct (Hkey _ _ H3) as (t3 & Hk3 & Hs3). destruct (Hkey _ _ H4) as (t4 & Hk4 & Hs4).
  cbn [shape] in Hs1, Hs2, Hs3, Hs4.
  unfold load_state_dict, load_param. rewrite Hk1, Hk2, Hk3, Hk4, Hdom.
  rewrite !bool_decide_eq_true_2 by done. done.
Qed.

Lemma load_state_dict_result (m : MyModel) (sd : gmap string (tensor scalar)) :
  (load_state_dict m sd).1 = Ok tt \/ (load_state_dict m sd).1 = Err RuntimeError.
Proof. unfold load_state_dict. destruct (_ && _)%bool; by eauto. Qed.

End CheckpointExtras.

(** X12. Strict loading of a state dictionary succeeds exactly when the
    dictionary has the four parameter names of the model, no other key,
    and a tensor of the expected shape under each; any other dictionary
    is refused with a RuntimeError.  After a successful load the state
    dictionary of the model is the dictionary that was loaded. *)
Theorem X12_strict_load_state_dict `{P : Pickle}
    (m : MyModel) (sd : gmap string (tensor scalar)) :
  ((load_state_dict m sd).1 = Ok tt <->
     dom sd = dom (state_dict m) /\
     forall k t t', sd !! k = Some t -> state_dict m !! k = Some t' -> shape t = shape t') /\
  ((load_state_dict m sd).1 = Ok tt -> state_dict (load_state_dict m sd).2 = sd) /\
  ((load_state_dict m sd).1 <> Ok tt -> (load_state_dict m sd).1 = Err RuntimeError).
Proof.
  split; [|split].
  - split.
    + intros Hok. pose proof (load_state_dict_Ok m sd Hok) as Hsd.
      assert (Hi : in_dim (load_state_dict m sd).2 = in_dim m)
        by (unfold load_state_dict; by destruct (_ && _)%bool).
      assert (Ho : out_dim (load_state_dict m sd).2 = out_dim m)
        by (unfold load_state_dict; by destruct (_ && _)%bool).
      split.
      * by rewrite <- Hsd at 1; rewrite !state_dict_dom.
      * intros k t t' Hk Hk'. rewrite <- Hsd in Hk.
        by apply (state_dict_shapes _ m k t t' ) in Hk.
    + intros [Hdom Hshape]. by apply load_state_dict_accepts.
  - apply load_state_dict_Ok.
  - intros Hne. by destruct (load_state_dict_result m sd).
Qed.

Section LoadOrder.
Context `{P : Pickle} `{!PickleLossless}.

Lemma load_saved_record (c : gmap string ckpt_value) (path : string)
    (fs : gmap string blob) (w : world) :
  load path (torch_save c path fs) w =
    (msd ← lift (dict_get c "model_state_dict");
     _ ← model_load_state_dict msd;
     osd ← lift (dict_get c "optimizer_state_dict");
     _ ← optimizer_load_state_dict osd;
     start_epoch ← lift (dict_get c "epoch");
     val_acc_prev_best ← lift (dict_get c "best_acc");
     mret (start_epoch, val_acc_prev_best)) w.
Proof.
  unfold load, torch_save, torch_load. rewrite lookup_insert_eq, unpickle_pickle.
  by rewrite (bind_Ok (lift (Ok c)) _ w w c eq_refl).
Qed.

Lemma dict_get_delete_eq (c : gmap string ckpt_value) (k : string) :
  dict_get (delete k c) k = Err KeyError.
Proof. unfold dict_get. by rewrite lookup_delete_eq. Qed.

Lemma dict_get_delete_ne (c : gmap string ckpt_value) (k k' : string) :
  k <> k' -> dict_get (delete k c) k' = dict_get c k'.
Proof. intros Hne. unfold dict_get. by rewrite lookup_delete_ne. Qed.

Lemma load_model_and_optimizer (c : gmap string ckpt_value) (m : MyModel) (o : opt_state)
    (w : world) {A} (k : M A) :
  c !! "model_state_dict" = Some (VModelState (state_dict m)) ->
  c !! "optimizer_state_dict" = Some (VOptimState o) ->
  in_dim (w_model w) = in_dim m ->
  out_dim (w_model w) = out_dim m ->
  (msd ← lift (dict_get c "model_state_dict");
   _ ← model_load_state_dict msd;
   osd ← lift (dict_get c "optimizer_state_dict");
   _ ← optimizer_load_state_dict osd;
   k) w
  = k (World (with_params (w_model w) (params m)) (w_grad w) o (w_rng w) (w_calls w)).
Proof.
  intros Hm Ho Hi Hod. unfold dict_get. rewrite Hm, Ho.
  rewrite (bind_Ok (lift (Ok _)) _ w w _ eq_refl).
  unfold model_load_state_dict at 1.
  erewrite bind_Ok; [|by rewrite (load_state_dict_state_dict _ _ Hi Hod)].
  unfold optimizer_load_state_dict, modify, lift, mbind, M_bind.
  by cbn [w_model w_grad w_optim w_rng w_calls].
Qed.

End LoadOrder.

(** X13. The loading statements restore the model and the optimiser
    before they read the two scalars.  A saved record without the model
    state makes them raise KeyError with nothing touched; a record that
    lacks only 'epoch' or only 'best_acc' makes them raise KeyError after
    the parameters of the model and the state of the optimiser have
    already been replaced by the saved ones. *)
Theorem X13_load_restores_before_reading_scalars `{P : Pickle} `{!PickleLossless}
    (path : string) (epoch : Z) (m : MyModel) (o : opt_state) (best_acc : Q)
    (fs : gmap string blob) (w : world) :
  in_dim (w_model w) = in_dim m ->
  out_dim (w_model w) = out_dim m ->
  let record := checkpoint_record epoch m o best_acc in
  let restored :=
    World (with_params (w_model w) (params m)) (w_grad w) o (w_rng w) (w_calls w) in
  load path (torch_save (delete "model_state_dict" record) path fs) w
    = (Err KeyError, w) /\
  load path (torch_save (delete "epoch" record) path fs) w
    = (Err KeyError, restored) /\
  load path (torch_save (delete "best_acc" record) path fs) w
    = (Err KeyError, restored).
Proof.
  intros Hi Ho record restored.
  destruct (checkpoint_record_lookups epoch m o best_acc) as (He & Hm & Hopt & Hb).
  cbv zeta in He, Hm, Hopt, Hb. fold record in He, Hm, Hopt, Hb.
  assert (Hm' : record !! "model_state_dict" = Some (VModelState (state_dict m))).
  { unfold dict_get in Hm. destruct (record !! "model_state_dict"); congruence. }
  assert (Ho' : record !! "optimizer_state_dict" = Some (VOptimState o)).
  { unfold dict_get in Hopt. destruct (record !! "optimizer_state_dict"); congruence. }
  split; [|split]; rewrite load_saved_record.
  - rewrite dict_get_delete_eq.
    by rewrite (bind_Err (lift (Err KeyError)) _ w w _ eq_refl).
  - rewrite (load_model_and_optimizer _ m o w) by (by rewrite ?lookup_delete_ne).
    rewrite dict_get_delete_eq.
    by rewrite (bind_Err (lift (Err KeyError)) _ restored restored _ eq_refl).
  - rewrite (load_model_and_optimizer _ m o w) by (by rewrite ?lookup_delete_ne).
    rewrite (dict_get_delete_ne _ "best_acc" "epoch"), He by done.
    rewrite (bind_Ok (lift (Ok _)) _ restored restored _ eq_refl).
    rewrite dict_get_delete_eq.
    by rewrite (bind_Err (lift (Err KeyError)) _ restored restored _ eq_refl).
Qed.

Lemma X13_witness :
  let record := checkpoint_record 5 demo_model 7 (97 # 100) in
  let restored :=
    World (with_params (w_model demo_world) (params demo_model)) (w_grad demo_world) 7
          (w_rng demo_world) (w_calls demo_world) in
  load "ckpt.pt" (torch_save (delete "model_state_dict" record) "ckpt.pt" ∅) demo_world
    = (Err KeyError, demo_world) /\
  load "ckpt.pt" (torch_save (delete "epoch" record) "ckpt.pt" ∅) demo_world
    = (Err KeyError, restored) /\
  load "ckpt.pt" (torch_save (delete "best_acc" record) "ckpt.pt" ∅) demo_world
    = (Err KeyError, restored).
Proof.
  apply (X13_load_restores_before_reading_scalars (P := demo_pickle)
           "ckpt.pt" 5%Z demo_model 7 (97 # 100)%Q ∅ demo_world);
    reflexivity.
Defined.

(** X14. The two cells of the notebook, run one after the other: the
    epoch read back is the loop variable plus one, the accuracy read back
    is the last test accuracy, and the model, the gradient buffers, the
    optimiser and the random source are exactly what they were before.
    What other files the file system holds does not matter. *)
Theorem X14_notebook_cells_resume_at_next_epoch `{P : Pickle} `{!PickleLossless}
    (epoch : Z) (test_acc : Q) (w : world) (fs : gmap string blob) :
  load_cell (save_cell epoch test_acc w fs) w
  = (Ok (VInt (epoch + 1), VFloat test_acc), w).
Proof. apply notebook_save_load_cells. Qed.

Lemma X14_witness :
  load_cell (save_cell 19 (9755 # 10000) demo_world ∅) demo_world
  = (Ok (VInt (19 + 1), VFloat (9755 # 10000)), demo_world).
Proof.
  apply (X14_notebook_cells_resume_at_next_epoch (P := demo_pickle)
           19%Z (9755 # 10000)%Q demo_world ∅).
Defined.

(** ** The train/test script *)

Section ScriptExtras.
Context `{T : Torch}.

Lemma concat_map_const {A B} (c : list B) (l : list A) :
  concat (map (fun _ => c) l) = concat (replicate (length l) c).
Proof. induction l as [|x l IH]; [done|]. cbn. by rewrite IH. Qed.

(** A pass of the runner over a non-empty sequence of accepted batches. *)
Lemma single_epoch_loop_run (w : world) (loader : list batch)
    (optimizer : option optimizer) (mode : string) :
  Forall (batch_ok (w_model w)) loader ->
  loader <> [] ->
  (mode = "train" -> optimizer <> None) ->
  exists acc loss w',
    single_epoch_loop loader optimizer mode w = (Ok (acc, loss), w') /\
    (0 <= acc <= 1)%Q /\
    same_architecture w w' /\
    w_calls w' = w_calls w ++ concat (replicate (length loader) (calls_per_batch mode)).
Proof.
  intros Hok Hne Hopt.
  destruct (epoch_loop_run optimizer mode loader Hopt w 0 0 None Hok)
    as (rs & w' & Houts & Hmap & _ & Hle & Hn & Hloop).
  destruct (epoch_outputs_effects optimizer mode loader Hopt w Hok)
    as (rs2 & w2 & Houts2 & _ & Hcalls).
  rewrite Houts in Houts2. injection Houts2 as <- <-.
  assert (Hpos : 0 < total_samples rs) by (destruct loader; [done|cbn in Hn; lia]).
  destruct (last rs) as [r_last|] eqn:Hlast.
  2:{ apply last_None in Hlast. subst rs. by destruct loader. }
  pose proof (keeps_arch_epoch_loop optimizer mode loader 0 0 None w) as Harch.
  fold (single_epoch_loop loader optimizer mode) in Harch.
  assert (Hrun : single_epoch_loop loader optimizer mode w
                 = (Ok ((Z.of_nat (total_correct rs) # Pos.of_nat (total_samples rs))%Q,
                        r_last.2), w')).
  { unfold single_epoch_loop. rewrite Hloop. cbn [epoch_loop Nat.add].
    unfold final_loss. rewrite Hlast. unfold truediv.
    destruct (Nat.eqb_spec (total_samples rs) 0); [lia|]. done. }
  rewrite Hrun in Harch. cbn [snd] in Harch.
  eexists _, _, w'. split; [exact Hrun|].
  split; [by apply accuracy_in_unit_interval|]. split; [exact Harch|].
  by rewrite Hcalls, concat_map_const.
Qed.

(** The batches the two loaders of the notebook produce. *)
Lemma notebook_pass (g : nat -> scalar) (N B : nat) (ds : MyDataset) (sh dlast : bool)
    (nw : nat) (dl : DataLoader) (draws : nat -> nat) (m : MyModel) :
  MyDataset_init g N = Ok ds ->
  DataLoader_init ds B sh dlast nw = Ok dl ->
  in_dim m = 256 -> out_dim m = 4 ->
  exists batches,
    DataLoader_iter dl draws = Ok batches /\
    Forall (batch_ok m) batches /\
    length batches = length (pass_sizes N B dlast).
Proof.
  intros Hinit Hdl Hi Ho.
  destruct (loader_pass_groups g N ds B sh dlast nw dl draws Hinit Hdl)
    as (Hiter & _ & Hgroups).
  destruct (DataLoader_iter_Ok g N ds B sh dlast nw dl draws Hinit Hdl)
    as (_ & _ & Hsizes).
  eexists. split; [exact Hiter|]. split.
  - by apply (loader_batches_ok g N).
  - by rewrite <- Hsizes, !length_map.
Qed.

Lemma pass_sizes_length (n bs : nat) (dl : bool) :
  length (pass_sizes n bs dl)
  = n / bs + (if (dl || (n mod bs =? 0))%bool then 0 else 1).
Proof.
  unfold pass_sizes. rewrite length_app, length_replicate.
  by destruct (dl || (n mod bs =? 0))%bool.
Qed.

Lemma epoch_iteration_run (g1 g2 : nat -> scalar) (N1 N2 : nat) (ds1 ds2 : MyDataset)
    (tdl edl : DataLoader) (draws : nat -> nat) (w : world) :
  MyDataset_init g1 N1 = Ok ds1 ->
  MyDataset_init g2 N2 = Ok ds2 ->
  train_loader ds1 = Ok tdl ->
  test_loader ds2 = Ok edl ->
  256 <= N1 ->
  in_dim (w_model w) = 256 ->
  out_dim (w_model w) = 4 ->
  exists tr te w1 w',
    (_ ← set_training true;
     train_batches ← lift (DataLoader_iter tdl draws);
     single_epoch_loop train_batches (Some Optimizer) "train") w = (Ok tr, w1) /\
    epoch_iteration tdl edl draws w = (Ok (tr, te), w') /\
    (0 <= tr.1 <= 1)%Q /\ (0 <= te.1 <= 1)%Q /\
    w_model w' = MyModel_eval (w_model w1) /\
    w_grad w' = w_grad w1 /\ w_optim w' = w_optim w1 /\
    in_dim (w_model w') = 256 /\ out_dim (w_model w') = 4 /\
    w_calls w' = w_calls w ++
      calls_per_epoch (N1 / 256) (length (pass_sizes N2 256 false)).
Proof.
  intros Hds1 Hds2 Htdl Hedl HN1 Hi Ho.
  set (w0 := World (MyModel_train (w_model w)) (w_grad w) (w_optim w) (w_rng w) (w_calls w)).
  destruct (notebook_pass g1 N1 256 ds1 true true 2 tdl draws (w_model w0) Hds1 Htdl Hi Ho)
    as (tb & Htb & Htok & Htlen).
  rewrite pass_sizes_drop, length_replicate in Htlen.
  assert (Htne : tb <> []).
  { intros ->. cbn [length] in Htlen.
    assert (1 <= N1 / 256) by (apply Nat.div_le_lower_bound; lia). lia. }
  destruct (single_epoch_loop_run w0 tb (Some Optimizer) "train" Htok Htne)
    as (tacc & tloss & w1 & Htrain & Htacc & (Hi1 & Ho1 & Ht1) & Hcalls1); [done|].
  set (w2 := World (MyModel_eval (w_model w1)) (w_grad w1) (w_optim w1) (w_rng w1)
               (w_calls w1)).
  assert (Hi2 : in_dim (w_model w2) = 256) by (cbn; rewrite Hi1; exact Hi).
  assert (Ho2 : out_dim (w_model w2) = 4) by (cbn; rewrite Ho1; exact Ho).
  destruct (notebook_pass g2 N2 256 ds2 false false 2 edl draws (w_model w2) Hds2 Hedl Hi2 Ho2)
    as (eb & Heb & Heok & Helen).
  assert (Hene : eb <> []).
  { intros ->. cbn [length] in Helen. rewrite pass_sizes_length in Helen. cbn [orb] in Helen.
    apply MyDataset_init_Ok in Hds2 as (HN2 & _).
    destruct (Nat.eqb_spec (N2 mod 256) 0) as [Hmod|]; [|lia].
    pose proof (Nat.div_mod_eq N2 256). lia. }
  destruct (single_epoch_loop_run w2 eb None "test" Heok Hene)
    as (eacc & eloss & w3 & Htest & Heacc & (Hi3 & Ho3 & Ht3) & Hcalls3); [done|].
  pose proof (preserves_epoch_loop None "test" eb 0 0 None ltac:(done) w2)
    as (Hm3 & Hg3 & Hopt3 & _).
  fold (single_epoch_loop eb None "test") in Hm3, Hg3, Hopt3.
  rewrite Htest in Hm3, Hg3, Hopt3. cbn [snd] in Hm3, Hg3, Hopt3.
  assert (Hfirst : (_ ← set_training true;
                    train_batches ← lift (DataLoader_iter tdl draws);
                    single_epoch_loop train_batches (Some Optimizer) "train") w
                   = (Ok (tacc, tloss), w1)).
  { rewrite (bind_Ok (set_training true) _ w w0 tt eq_refl).
    rewrite Htb, (bind_Ok (lift (Ok tb)) _ w0 w0 tb eq_refl). exact Htrain. }
  exists (tacc, tloss), (eacc, eloss), w1, w3.
  split; [exact Hfirst|]. split; [|repeat split; try done].
  - unfold epoch_iteration.
    rewrite (bind_Ok (set_training true) _ w w0 tt eq_refl).
    rewrite Htb, (bind_Ok (lift (Ok tb)) _ w0 w0 tb eq_refl).
    rewrite (bind_Ok _ _ _ _ _ Htrain).
    rewrite (bind_Ok (set_training false) _ w1 w2 tt eq_refl).
    rewrite Heb, (bind_Ok (lift (Ok eb)) _ w2 w2 eb eq_refl).
    by rewrite (bind_Ok _ _ _ _ _ Htest).
  - by apply Htacc.
  - by apply Htacc.
  - by apply Heacc.
  - by apply Heacc.
  - congruence.
  - congruence.
  - rewrite Hcalls3. cbn [w2 w_calls]. rewrite Hcalls1. cbn [w0 w_calls].
    unfold calls_per_epoch. by rewrite Htlen, Helen, app_assoc.
Qed.


Lemma training_loop_run (g1 g2 : nat -> scalar) (N1 N2 : nat) (ds1 ds2 : MyDataset)
    (tdl edl : DataLoader) (draws : nat -> nat -> nat) :
  MyDataset_init g1 N1 = Ok ds1 ->
  MyDataset_init g2 N2 = Ok ds2 ->
  train_loader ds1 = Ok tdl ->
  test_loader ds2 = Ok edl ->
  256 <= N1 ->
  forall (epochs : list nat) (console : list console_line) (w : world),
  in_dim (w_model w) = 256 ->
  out_dim (w_model w) = 4 ->
  exists lines w',
    training_loop epochs tdl edl draws console w = (Ok tt, w', console ++ lines) /\
    map line_epoch lines = epochs /\
    Forall (fun l => (0 <= line_train_acc l <= 1)%Q /\ (0 <= line_test_acc l <= 1)%Q) lines /\
    (epochs <> [] -> training (w_model w') = false) /\
    w_calls w' = w_calls w ++
      concat (replicate (length epochs)
                (calls_per_epoch (N1 / 256) (length (pass_sizes N2 256 false)))).
Proof.
  intros Hds1 Hds2 Htdl Hedl HN1.
  induction epochs as [|epoch rest IH]; intros console w Hi Ho.
  - exists [], w. cbn. rewrite !app_nil_r. by repeat split.
  - destruct (epoch_iteration_run g1 g2 N1 N2 ds1 ds2 tdl edl (draws epoch) w
                Hds1 Hds2 Htdl Hedl HN1 Hi Ho)
      as (tr & te & w1 & w' & _ & Hiter & Htr & Hte & Hm & _ & _ & Hi' & Ho' & Hcalls).
    set (line := {| line_epoch := epoch; line_train_acc := tr.1; line_train_loss := tr.2;
                    line_test_acc := te.1; line_test_loss := te.2 |}).
    destruct (IH (console ++ [line]) w' Hi' Ho')
      as (lines & w'' & Hloop & Hep & Hacc & Hmode & Hcalls').
    exists (line :: lines), w''. split; [|split; [|split; [|split]]].
    + cbn [training_loop]. rewrite Hiter. fold line. rewrite Hloop.
      by rewrite <- app_assoc.
    + cbn [map]. by rewrite Hep.
    + by constructor.
    + intros _. destruct rest as [|e' rest'].
      * cbn [training_loop] in Hloop. injection Hloop as <- _. by rewrite Hm.
      * by apply Hmode.
    + rewrite Hcalls', Hcalls. cbn [length replicate concat]. by rewrite <- !app_assoc.
Qed.

End ScriptExtras.

(** X15. One iteration of the script on the notebook's loaders and a
    model of 256 inputs and 4 classes, the training set holding at least
    one full batch.  It runs through; both accuracies are in [0,1]; and
    the test pass only observes what the training pass left: it runs in
    evaluation mode and changes neither the parameters, nor the gradient
    buffers, nor the optimiser state. *)
Theorem X15_test_pass_observes_the_trained_model `{T : Torch}
    (g1 g2 : nat -> scalar) (N1 N2 : nat) (ds1 ds2 : MyDataset)
    (tdl edl : DataLoader) (draws : nat -> nat) (w : world) :
  MyDataset_init g1 N1 = Ok ds1 ->
  MyDataset_init g2 N2 = Ok ds2 ->
  train_loader ds1 = Ok tdl ->
  test_loader ds2 = Ok edl ->
  256 <= N1 ->
  in_dim (w_model w) = 256 ->
  out_dim (w_model w) = 4 ->
  exists tr te w1 w',
    (_ ← set_training true;
     train_batches ← lift (DataLoader_iter tdl draws);
     single_epoch_loop train_batches (Some Optimizer) "train") w = (Ok tr, w1) /\
    epoch_iteration tdl edl draws w = (Ok (tr, te), w') /\
    (0 <= tr.1 <= 1)%Q /\ (0 <= te.1 <= 1)%Q /\
    w_model w' = MyModel_eval (w_model w1) /\
    w_grad w' = w_grad w1 /\ w_optim w' = w_optim w1.
Proof.
  intros Hds1 Hds2 Htdl Hedl HN1 Hi Ho.
  destruct (epoch_iteration_run g1 g2 N1 N2 ds1 ds2 tdl edl draws w
              Hds1 Hds2 Htdl Hedl HN1 Hi Ho)
    as (tr & te & w1 & w' & H1 & H2 & H3 & H4 & H5 & H6 & H7 & _).
  by exists tr, te, w1, w'.
Qed.

(** X16. The script on the notebook's loaders, for a model of 256 inputs
    and 4 classes and a training set of at least 256 items: all 20 epochs
    complete; the console gets one line per epoch, numbered 0 to 19 in
    order, with accuracies in [0,1]; the model is left in evaluation mode;
    and every epoch makes [N1 / 256] optimiser steps, one per training
    batch, and none during the test pass. *)
Theorem X16_training_script_runs_twenty_epochs `{T : Torch}
    (g1 g2 : nat -> scalar) (N1 N2 : nat) (ds1 ds2 : MyDataset)
    (tdl edl : DataLoader) (draws : nat -> nat -> nat) (w : world) :
  MyDataset_init g1 N1 = Ok ds1 ->
  MyDataset_init g2 N2 = Ok ds2 ->
  train_loader ds1 = Ok tdl ->
  test_loader ds2 = Ok edl ->
  256 <= N1 ->
  in_dim (w_model w) = 256 ->
  out_dim (w_model w) = 4 ->
  exists console w',
    training_script tdl edl draws w = (Ok tt, w', console) /\
    map line_epoch console = seq 0 20 /\
    Forall (fun l => (0 <= line_train_acc l <= 1)%Q /\ (0 <= line_test_acc l <= 1)%Q)
           console /\
    training (w_model w') = false /\
    w_calls w' = w_calls w ++
      concat (replicate 20 (calls_per_epoch (N1 / 256) (length (pass_sizes N2 256 false)))).
Proof.
  intros Hds1 Hds2 Htdl Hedl HN1 Hi Ho.
  destruct (training_loop_run g1 g2 N1 N2 ds1 ds2 tdl edl draws
              Hds1 Hds2 Htdl Hedl HN1 (seq 0 20) [] w Hi Ho)
    as (lines & w' & Hloop & Hep & Hacc & Hmode & Hcalls).
  exists lines, w'. repeat split; try done. by apply Hmode.
Qed.

(** X17. The whole notebook: after the 20 epochs the save cell stores
    the next epoch index, and the load cell reads back [start_epoch = 20]
    and, as best accuracy, the test accuracy of the last line of the
    console, leaving the trained model as it was. *)
Theorem X17_notebook_resumes_at_epoch_twenty `{P : Pickle} `{!PickleLossless}
    (g1 g2 : nat -> scalar) (N1 N2 : nat) (ds1 ds2 : MyDataset)
    (tdl edl : DataLoader) (draws : nat -> nat -> nat) (w : world)
    (fs : gmap string blob) :
  MyDataset_init g1 N1 = Ok ds1 ->
  MyDataset_init g2 N2 = Ok ds2 ->
  train_loader ds1 = Ok tdl ->
  test_loader ds2 = Ok edl ->
  256 <= N1 ->
  in_dim (w_model w) = 256 ->
  out_dim (w_model w) = 4 ->
  exists console l w',
    training_script tdl edl draws w = (Ok tt, w', console) /\
    last console = Some l /\
    length console = 20 /\
    notebook_run tdl edl draws w fs
    = (Ok (VInt 20, VFloat (line_test_acc l)), w', console).
Proof.
  intros Hds1 Hds2 Htdl Hedl HN1 Hi Ho.
  destruct (training_loop_run g1 g2 N1 N2 ds1 ds2 tdl edl draws
              Hds1 Hds2 Htdl Hedl HN1 (seq 0 20) [] w Hi Ho)
    as (lines & w' & Hloop & Hep & _).
  cbn [app] in Hloop. fold (training_script tdl edl draws w) in Hloop.
  assert (Hlen : length lines = 20).
  { by rewrite <- (length_map line_epoch), Hep, length_seq. }
  destruct (last lines) as [l|] eqn:Hlast.
  2:{ apply last_None in Hlast. by subst lines. }
  assert (Hl : line_epoch l = 19).
  { assert (Hl' : last (map line_epoch lines) = Some (line_epoch l)).
    { change (map ?f lines) with (f <$> lines). by rewrite fmap_last, Hlast. }
    rewrite Hep in Hl'. change (last (seq 0 20)) with (Some 19) in Hl'.
    by injection Hl' as <-. }
  exists lines, l, w'. repeat split; try done.
  unfold notebook_run. rewrite Hloop, Hlast, Hl. cbv zeta.
  by rewrite notebook_save_load_cells.
Qed.

(** The demonstration training set is the one the constructor builds. *)
Lemma demo_train_dataset_built :
  @MyDataset_init Q_scalar demo_rand 300 = Ok demo_train_dataset.
Proof.
  unfold demo_train_dataset.
  destruct (MyDataset_init_succeeds (Sc := Q_scalar) demo_rand 300) as [d ->]; [lia|done].
Qed.

Lemma X10_witness :
  exists batches rs r_last w',
    DataLoader_iter demo_dataloader (fun i => i) = Ok batches /\
    epoch_outputs None "test" batches demo_world_256 = (Ok rs, w') /\
    last rs = Some r_last /\
    total_samples rs = 2 /\
    0 < total_samples rs /\
    single_epoch_loop batches None "test" demo_world_256
    = (Ok ((Z.of_nat (total_correct rs) # Pos.of_nat (total_samples rs))%Q, r_last.2), w').
Proof.
  apply (X10_epoch_over_loader_counts_every_sample (T := demo_torch)
           demo_rand 2 demo_dataset 3 true false 2 demo_dataloader (fun i => i)
           demo_world_256 None "test").
  - exact demo_dataset_built.
  - reflexivity.
  - reflexivity.
  - reflexivity.
  - discriminate.
  - discriminate.
Defined.


Lemma X15_witness :
  exists tr te w1 w',
    (_ ← set_training true;
     train_batches ← lift (DataLoader_iter demo_train_loader (fun i => i));
     single_epoch_loop train_batches (Some Optimizer) "train") demo_world_256
    = (Ok tr, w1) /\
    epoch_iteration demo_train_loader demo_test_loader (fun i => i) demo_world_256
    = (Ok (tr, te), w') /\
    (0 <= tr.1 <= 1)%Q /\ (0 <= te.1 <= 1)%Q /\
    w_model w' = MyModel_eval (w_model w1) /\
    w_grad w' = w_grad w1 /\ w_optim w' = w_optim w1.
Proof.
  apply (X15_test_pass_observes_the_trained_model (T := demo_torch)
           demo_rand demo_rand 300 2 demo_train_dataset demo_dataset
           demo_train_loader demo_test_loader (fun i => i) demo_world_256).
  - exact demo_train_dataset_built.
  - exact demo_dataset_built.
  - reflexivity.
  - reflexivity.
  - lia.
  - reflexivity.
  - reflexivity.
Defined.

Lemma X16_witness :
  exists console w',
    training_script demo_train_loader demo_test_loader (fun _ i => i) demo_world_256
    = (Ok tt, w', console) /\
    map line_epoch console = seq 0 20 /\
    Forall (fun l => (0 <= line_train_acc l <= 1)%Q /\ (0 <= line_test_acc l <= 1)%Q)
           console /\
    training (w_model w') = false /\
    w_calls w' = w_calls demo_world_256 ++
      concat (replicate 20 (calls_per_epoch (300 / 256) (length (pass_sizes 2 256 false)))).
Proof.
  apply (X16_training_script_runs_twenty_epochs (T := demo_torch)
           demo_rand demo_rand 300 2 demo_train_dataset demo_dataset
           demo_train_loader demo_test_loader (fun _ i => i) demo_world_256).
  - exact demo_train_dataset_built.
  - exact demo_dataset_built.
  - reflexivity.
  - reflexivity.
  - lia.
  - reflexivity.
  - reflexivity.
Defined.

Lemma X17_witness :
  exists console l w',
    training_script demo_train_loader demo_test_loader (fun _ i => i) demo_world_256
    = (Ok tt, w', console) /\
    last console = Some l /\
    length console = 20 /\
    notebook_run demo_train_loader demo_test_loader (fun _ i => i) demo_world_256 ∅
    = (Ok (VInt 20, VFloat (line_test_acc l)), w', console).
Proof.
  apply (X17_notebook_resumes_at_epoch_twenty (P := demo_pickle)
           demo_rand demo_rand 300 2 demo_train_dataset demo_dataset
           demo_train_loader demo_test_loader (fun _ i => i) demo_world_256 ∅).
  - exact demo_train_dataset_built.
  - exact demo_dataset_built.
  - reflexivity.
  - reflexivity.
  - lia.
  - reflexivity.
  - reflexivity.
Defined.
